(** * The oplog writer of the replication subsystem

    A shallow embedding of [src/mongo/db/repl/oplog_writer_impl.cpp]:
    the two insert units of work, [OplogWriterStats], and the four
    methods of [OplogWriterImpl] ([_run], [writeOplogBatch],
    [finalizeOplogBatch], [_writeOplogBatchImpl]).

    The C++ code talks to many collaborators through pointers (the
    replication coordinator, the storage interface, the apply buffer, the
    observer, the journal flusher).  Here all of them live in one explicit
    [World] value that is threaded through a small state-and-abort monad;
    every call on a collaborator also leaves an [Event] in the world's
    trace, so that ordering properties can be stated on the trace.
    [fassert] and [invariant] stop the process: they are the [Halt]
    outcome of the monad. *)

From Stdlib Require Import ZArith List String Bool Lia.
Import ListNotations.

Local Open Scope string_scope.
Local Open Scope list_scope.
Local Open Scope Z_scope.

(** ** Positions, records and statuses *)

Definition Timestamp := Z.

(** [repl::OpTime]: a timestamp and a term. *)
Record OpTime : Type := mkOpTime {
  getTimestamp : Timestamp;
  getTerm : Z
}.

Record OpTimeAndWallTime : Type := mkOpTimeAndWallTime {
  opTime : OpTime;
  wallTime : Z
}.

(** Modelled from the spec: [OpTime]'s comparison operators are declared
    outside this file.  A position is a (term, timestamp) pair; two
    positions are equal when both fields are, and positions are compared
    on the term first and on the timestamp for equal terms. *)
Definition OpTime_eqb (a b : OpTime) : bool :=
  (getTimestamp a =? getTimestamp b) && (getTerm a =? getTerm b).

(** Modelled from the spec: positions are compared on the term first. *)
Definition OpTime_ltb (a b : OpTime) : bool :=
  (getTerm a <? getTerm b)
  || ((getTerm a =? getTerm b) && (getTimestamp a <? getTimestamp b)).

(** Modelled from the spec: not below, for the order above. *)
Definition OpTime_leb (a b : OpTime) : bool := negb (OpTime_ltb b a).

Inductive ErrorCodes : Type :=
| OK
| InterruptedAtShutdown
| NamespaceNotFound
| WriteConflict
| NoSuchKey
| OtherError (n : Z).

Definition ErrorCodes_eqb (a b : ErrorCodes) : bool :=
  match a, b with
  | OK, OK => true
  | InterruptedAtShutdown, InterruptedAtShutdown => true
  | NamespaceNotFound, NamespaceNotFound => true
  | WriteConflict, WriteConflict => true
  | NoSuchKey, NoSuchKey => true
  | OtherError n, OtherError m => n =? m
  | _, _ => false
  end.

Record Status : Type := mkStatus {
  code : ErrorCodes;
  reason : string
}.

Definition Status_OK : Status := mkStatus OK "".

Definition isOK (s : Status) : bool := ErrorCodes_eqb (code s) OK.

Inductive StatusWith (A : Type) : Type :=
| SW_Value (a : A)
| SW_Error (s : Status).
Arguments SW_Value {A} a.
Arguments SW_Error {A} s.

Definition getStatus {A} (sw : StatusWith A) : Status :=
  match sw with
  | SW_Value _ => Status_OK
  | SW_Error s => s
  end.

(** Modelled from the spec: the record type [BSONObj] and its parsers
    [OpTime::parseFromOplogEntry] and
    [OpTimeAndWallTime::parseOpTimeAndWallTimeFromOplogEntry] are declared
    outside this file.  An operation record carries a logical position
    (term + timestamp) and a wall-clock time; a malformed record is one
    whose position (or wall-clock time) cannot be extracted.  The rest of
    the document is opaque. *)
Record BSONObj : Type := mkBSONObj {
  position : option OpTime;
  wallClockTime : option Z;
  body : string
}.

(** Modelled from the spec: [OpTime::parseFromOplogEntry] extracts the
    position of the record and fails on a record without one. *)
Definition parseFromOplogEntry (op : BSONObj) : StatusWith OpTime :=
  match position op with
  | Some t => SW_Value t
  | None => SW_Error (mkStatus NoSuchKey "missing position")
  end.

(** Modelled from the spec:
    [OpTimeAndWallTime::parseOpTimeAndWallTimeFromOplogEntry] extracts the
    position and the wall-clock time of the record and fails when either
    is missing. *)
Definition parseOpTimeAndWallTimeFromOplogEntry (op : BSONObj)
  : StatusWith OpTimeAndWallTime :=
  match position op, wallClockTime op with
  | Some t, Some wt => SW_Value (mkOpTimeAndWallTime t wt)
  | None, _ => SW_Error (mkStatus NoSuchKey "missing position")
  | _, None => SW_Error (mkStatus NoSuchKey "missing wall clock time")
  end.

(** [InsertStatement{op, opTime.getTimestamp(), opTime.getTerm()}]: the
    constructor rebuilds the slot from the two fields it is given. *)
Record InsertStatement : Type := mkInsert {
  doc : BSONObj;
  oplogSlot : OpTime
}.

Definition InsertStatement_of (op : BSONObj) (ts : Timestamp) (term : Z)
  : InsertStatement :=
  mkInsert op (mkOpTime ts term).

(** The batch handed out by the batcher: [empty()], [exhausted()],
    [releaseBatch()]. *)
Record OplogWriterBatch : Type := mkBatch {
  releaseBatch : list BSONObj;
  exhausted : bool
}.

(** [std::vector::empty()]. *)
Definition vector_empty {A} (l : list A) : bool :=
  match l with
  | [] => true
  | _ :: _ => false
  end.

Definition empty (b : OplogWriterBatch) : bool := vector_empty (releaseBatch b).

(** ** Stats *)

(** The counters of the stats are 64-bit machine integers:
    [incrementBatchSize] takes a [uint64_t], and the value is read back by
    [getReport] as a signed 64-bit integer.  A counter is held as a [Z] and
    every addition is reduced to the 64-bit range, so that a sum beyond
    [int64_max] wraps around. *)
Definition two63 : Z := 9223372036854775808.
Definition two64 : Z := 18446744073709551616.
Definition int64_min : Z := - two63.
Definition int64_max : Z := two63 - 1.

(** The conversion of an integer to [uint64_t]. *)
Definition to_uint64 (z : Z) : Z := z mod two64.

(** The conversion of an integer to a signed 64-bit integer (two's
    complement). *)
Definition to_int64 (z : Z) : Z := (z + two63) mod two64 - two63.

(** The values of a signed 64-bit integer. *)
Definition inInt64 (z : Z) : Prop := int64_min <= z <= int64_max.

(** Modelled from the spec: [Counter64] is declared outside this file; it
    is a 64-bit counter.  [increment] takes the amount as a [uint64_t] and
    adds it to the 64-bit value, which wraps around. *)
Definition Counter64_increment (n : Z) (c : Z) : Z := to_int64 (c + to_uint64 n).

Arguments to_uint64 : simpl never.
Arguments to_int64 : simpl never.
Arguments Counter64_increment : simpl never.

(** Modelled from the spec: [TimerStats] is declared outside this file; it
    is the batch count together with the aggregated batch timing, both
    64-bit integers. *)
Record TimerStats : Type := mkTimerStats {
  _num : Z;
  _totalMillis : Z
}.

(** The stats of the writer: the record counter [_batchSize] (a
    [Counter64]) and the batch timer [_batches]. *)
Record OplogWriterStats : Type := mkStats {
  _batchSize : Z;
  _batches : TimerStats
}.

(** [OplogWriterStats::incrementBatchSize(uint64_t n)]:
    [_batchSize.increment(n)]. *)
Definition incrementBatchSize (n : Z) (s : OplogWriterStats) : OplogWriterStats :=
  mkStats (Counter64_increment n (_batchSize s)) (_batches s).

Definition getBatches (s : OplogWriterStats) : TimerStats := _batches s.

(** The report built by [BSONObjBuilder]: an ordered list of named fields,
    each a number or a sub-document of numbers. *)
Inductive ReportValue : Type :=
| RNumber (n : Z)
| RObject (fields : list (string * Z)).

Definition Report := list (string * ReportValue).

(** Modelled from the spec: [TimerStats::getReport] exposes the batch count
    and the aggregated batch timing. *)
Definition TimerStats_getReport (t : TimerStats) : ReportValue :=
  RObject [("num", _num t); ("totalMillis", _totalMillis t)].

Definition getReport (s : OplogWriterStats) : Report :=
  [("batchSize", RNumber (_batchSize s));
   ("batches", TimerStats_getReport (_batches s))].

(** ** Events, fatal halts and the world *)

Inductive Sink : Type := OplogColl | ChangeColl.

Inductive Event : Type :=
| EvPauseWhileSet
| EvFinishRecoveryIfEligible
| EvGetNextBatch (k : nat)
| EvEnterDrainMode
| EvExitDrainMode
| EvIncrementBatchSize (n : Z)
| EvTimerStart
| EvTimerStop
| EvWuowBegin (s : Sink)
| EvAcquireLocks (s : Sink)
| EvInsert (s : Sink) (docs : list InsertStatement) (st : Status)
| EvWuowCommit (s : Sink)
| EvWuowAbort (s : Sink)
| EvOnWriteOplogCollection (docs : list InsertStatement)
| EvOnWriteChangeCollection (docs : list InsertStatement)
| EvOplogDiskLocRegister (ts : Timestamp) (orderedCommit : bool)
| EvSetMyLastWrittenForward (t : OpTimeAndWallTime)
| EvTriggerJournalFlush
| EvPush (ops : list BSONObj).

Inductive Fatal : Type :=
| Fassert (msgid : Z) (s : Status)
| FassertNoTrace (msgid : Z) (s : Status)
| InvariantStatusOK (s : Status)
| Invariant (expr : string).

(** What the writer does not control: the options it was built with, the
    storage medium, and what the write buffer, the shutdown flag and the
    test fail point answer at the k-th iteration of the main loop. *)
Record Env : Type := mkEnv {
  arbiter : bool;
  isEphemeral : bool;
  skipWritesToOplogColl : bool;
  rsSyncApplyStop : nat -> bool;
  getNextBatch : nat -> OplogWriterBatch;
  inShutdown : nat -> bool;
  insertMillis : Z
}.

Record World : Type := mkWorld {
  (* OplogWriterImpl *)
  _applyBufferInDrainMode : bool;
  fetches : nat;
  (* the "repl.write" metric *)
  oplogWriterMetric : OplogWriterStats;
  clock : Z;
  (* the apply buffer *)
  applyBuffer : list BSONObj;
  applyBufferDrainMode : bool;
  (* the replication coordinator *)
  myLastWritten : OpTimeAndWallTime;
  (* storage *)
  oplogColl : option (list InsertStatement);
  changeColl : list InsertStatement;
  insertScript : list Status;
  oplogVisibility : Timestamp;
  journalFlushes : Z;
  changeCollectionsModeActive : bool;
  (* every call on a collaborator, oldest first *)
  trace : list Event
}.

Definition set_applyBufferInDrainMode (b : bool) (w : World) : World :=
  mkWorld b (fetches w) (oplogWriterMetric w) (clock w) (applyBuffer w)
    (applyBufferDrainMode w) (myLastWritten w) (oplogColl w) (changeColl w)
    (insertScript w) (oplogVisibility w) (journalFlushes w)
    (changeCollectionsModeActive w) (trace w).

Definition set_fetches (n : nat) (w : World) : World :=
  mkWorld (_applyBufferInDrainMode w) n (oplogWriterMetric w) (clock w)
    (applyBuffer w) (applyBufferDrainMode w) (myLastWritten w) (oplogColl w)
    (changeColl w) (insertScript w) (oplogVisibility w) (journalFlushes w)
    (changeCollectionsModeActive w) (trace w).

Definition set_oplogWriterMetric (s : OplogWriterStats) (w : World) : World :=
  mkWorld (_applyBufferInDrainMode w) (fetches w) s (clock w) (applyBuffer w)
    (applyBufferDrainMode w) (myLastWritten w) (oplogColl w) (changeColl w)
    (insertScript w) (oplogVisibility w) (journalFlushes w)
    (changeCollectionsModeActive w) (trace w).

Definition set_clock (c : Z) (w : World) : World :=
  mkWorld (_applyBufferInDrainMode w) (fetches w) (oplogWriterMetric w) c
    (applyBuffer w) (applyBufferDrainMode w) (myLastWritten w) (oplogColl w)
    (changeColl w) (insertScript w) (oplogVisibility w) (journalFlushes w)
    (changeCollectionsModeActive w) (trace w).

Definition set_applyBuffer (l : list BSONObj) (w : World) : World :=
  mkWorld (_applyBufferInDrainMode w) (fetches w) (oplogWriterMetric w)
    (clock w) l (applyBufferDrainMode w) (myLastWritten w) (oplogColl w)
    (changeColl w) (insertScript w) (oplogVisibility w) (journalFlushes w)
    (changeCollectionsModeActive w) (trace w).

Definition set_applyBufferDrainMode (b : bool) (w : World) : World :=
  mkWorld (_applyBufferInDrainMode w) (fetches w) (oplogWriterMetric w)
    (clock w) (applyBuffer w) b (myLastWritten w) (oplogColl w) (changeColl w)
    (insertScript w) (oplogVisibility w) (journalFlushes w)
    (changeCollectionsModeActive w) (trace w).

Definition set_myLastWritten (t : OpTimeAndWallTime) (w : World) : World :=
  mkWorld (_applyBufferInDrainMode w) (fetches w) (oplogWriterMetric w)
    (clock w) (applyBuffer w) (applyBufferDrainMode w) t (oplogColl w)
    (changeColl w) (insertScript w) (oplogVisibility w) (journalFlushes w)
    (changeCollectionsModeActive w) (trace w).

Definition set_oplogColl (c : option (list InsertStatement)) (w : World) : World :=
  mkWorld (_applyBufferInDrainMode w) (fetches w) (oplogWriterMetric w)
    (clock w) (applyBuffer w) (applyBufferDrainMode w) (myLastWritten w) c
    (changeColl w) (insertScript w) (oplogVisibility w) (journalFlushes w)
    (changeCollectionsModeActive w) (trace w).

Definition set_changeColl (c : list InsertStatement) (w : World) : World :=
  mkWorld (_applyBufferInDrainMode w) (fetches w) (oplogWriterMetric w)
    (clock w) (applyBuffer w) (applyBufferDrainMode w) (myLastWritten w)
    (oplogColl w) c (insertScript w) (oplogVisibility w) (journalFlushes w)
    (changeCollectionsModeActive w) (trace w).

Definition set_insertScript (l : list Status) (w : World) : World :=
  mkWorld (_applyBufferInDrainMode w) (fetches w) (oplogWriterMetric w)
    (clock w) (applyBuffer w) (applyBufferDrainMode w) (myLastWritten w)
    (oplogColl w) (changeColl w) l (oplogVisibility w) (journalFlushes w)
    (changeCollectionsModeActive w) (trace w).

Definition set_oplogVisibility (ts : Timestamp) (w : World) : World :=
  mkWorld (_applyBufferInDrainMode w) (fetches w) (oplogWriterMetric w)
    (clock w) (applyBuffer w) (applyBufferDrainMode w) (myLastWritten w)
    (oplogColl w) (changeColl w) (insertScript w) ts (journalFlushes w)
    (changeCollectionsModeActive w) (trace w).

Definition set_journalFlushes (n : Z) (w : World) : World :=
  mkWorld (_applyBufferInDrainMode w) (fetches w) (oplogWriterMetric w)
    (clock w) (applyBuffer w) (applyBufferDrainMode w) (myLastWritten w)
    (oplogColl w) (changeColl w) (insertScript w) (oplogVisibility w) n
    (changeCollectionsModeActive w) (trace w).

Definition set_trace (t : list Event) (w : World) : World :=
  mkWorld (_applyBufferInDrainMode w) (fetches w) (oplogWriterMetric w)
    (clock w) (applyBuffer w) (applyBufferDrainMode w) (myLastWritten w)
    (oplogColl w) (changeColl w) (insertScript w) (oplogVisibility w)
    (journalFlushes w) (changeCollectionsModeActive w) t.

(** ** The monad: state, fatal halt, and running out of fuel *)

Inductive Result (A : Type) : Type :=
| Done (a : A) (w : World)
| Halt (f : Fatal) (w : World)
| OutOfFuel (w : World).
Arguments Done {A} a w.
Arguments Halt {A} f w.
Arguments OutOfFuel {A} w.

Definition world_of {A} (r : Result A) : World :=
  match r with
  | Done _ w => w
  | Halt _ w => w
  | OutOfFuel w => w
  end.

Definition M (A : Type) : Type := World -> Result A.

Definition ret {A} (a : A) : M A := fun w => Done a w.

Definition bind {A B} (m : M A) (k : A -> M B) : M B :=
  fun w =>
    match m w with
    | Done a w' => k a w'
    | Halt f w' => Halt f w'
    | OutOfFuel w' => OutOfFuel w'
    end.

Notation "x <- m ;; k" := (bind m (fun x => k))
  (at level 61, m at next level, right associativity).
Notation "m ;;; k" := (bind m (fun _ => k))
  (at level 61, right associativity).

Definition halt {A} (f : Fatal) : M A := fun w => Halt f w.
Definition outOfFuel {A} : M A := fun w => OutOfFuel w.
Definition get : M World := fun w => Done w w.
Definition modify (f : World -> World) : M unit := fun w => Done tt (f w).
Definition emit (e : Event) : M unit :=
  modify (fun w => set_trace (trace w ++ [e]) w).

Definition invariant (b : bool) (expr : string) : M unit :=
  if b then ret tt else halt (Invariant expr).

Definition invariantStatusOK {A} (sw : StatusWith A) : M A :=
  match sw with
  | SW_Value a => ret a
  | SW_Error s => halt (InvariantStatusOK s)
  end.

Definition fassert (msgid : Z) (s : Status) : M unit :=
  if isOK s then ret tt else halt (Fassert msgid s).

Definition fassertNoTrace {A} (msgid : Z) (sw : StatusWith A) : M A :=
  match sw with
  | SW_Value a => ret a
  | SW_Error s => halt (FassertNoTrace msgid s)
  end.

(** ** Collaborators

    Modelled from the spec: the collaborators are declared outside this
    file, and the spec lists their interfaces.  The apply buffer has a
    push and a drain mode that is entered and left; the storage interface
    registers the visibility point; the journal flusher is triggered; the
    observer is notified after a write.  Each call updates the part of the
    world it stands for and leaves an event in the trace.  Blocking (the
    bounded wait of the fetch, the push into a full apply buffer) does not
    show in a sequential run and is not modelled. *)

Section Writer.

Variable env : Env.

(** The storage engine's insert ([collection_internal::insertDocuments] and
    the change-collection writer's [write()]) is taken as a parameter of
    the world: it answers with the next status of the world's script, or
    with OK once the script is used up, and takes [insertMillis] of
    wall-clock time. *)
Definition insertDocuments (s : Sink) (docs : list InsertStatement) : M Status :=
  w <- get ;;
  let st := hd Status_OK (insertScript w) in
  modify (set_insertScript (tl (insertScript w))) ;;;
  modify (fun w => set_clock (clock w + insertMillis env) w) ;;;
  emit (EvInsert s docs st) ;;;
  ret st.

(** Modelled from the spec: the change-feed mode is a condition of the
    world, independent of the writer. *)
Definition isChangeCollectionsModeActive : M bool :=
  w <- get ;; ret (changeCollectionsModeActive w).

(** Modelled from the spec: the observer hooks are synchronous
    notifications; they are recorded in the trace. *)
Definition onWriteOplogCollection (docs : list InsertStatement) : M unit :=
  emit (EvOnWriteOplogCollection docs).

Definition onWriteChangeCollection (docs : list InsertStatement) : M unit :=
  emit (EvOnWriteChangeCollection docs).

(** Modelled from the spec: the apply buffer's drain mode is entered and
    left, and records are pushed at its end, in order. *)
Definition enterDrainMode : M unit :=
  modify (set_applyBufferDrainMode true) ;;; emit EvEnterDrainMode.

Definition exitDrainMode : M unit :=
  modify (set_applyBufferDrainMode false) ;;; emit EvExitDrainMode.

Definition push (ops : list BSONObj) : M unit :=
  modify (fun w => set_applyBuffer (applyBuffer w ++ ops) w) ;;;
  emit (EvPush ops).

(** Modelled from the spec: the storage engine is told the new visibility
    point, in ordered-commit mode or not. *)
Definition oplogDiskLocRegister (ts : Timestamp) (orderedCommit : bool) : M unit :=
  modify (set_oplogVisibility ts) ;;;
  emit (EvOplogDiskLocRegister ts orderedCommit).

(** Modelled from the spec: [setMyLastWrittenOpTimeAndWallTimeForward] is
    a method of the replication coordinator, outside this file.  It
    advances LastWrittenPosition forward: a no-op if the proposed value is
    not strictly greater than the current one. *)
Definition advanceForward (t cur : OpTimeAndWallTime) : OpTimeAndWallTime :=
  if OpTime_ltb (opTime cur) (opTime t) then t else cur.

(** Modelled from the spec: the call on the replication coordinator; it
    advances LastWrittenPosition forward with [advanceForward]. *)
Definition setMyLastWrittenOpTimeAndWallTimeForward (t : OpTimeAndWallTime) : M unit :=
  modify (fun w => set_myLastWritten (advanceForward t (myLastWritten w)) w) ;;;
  emit (EvSetMyLastWrittenForward t).

(** Modelled from the spec: the background durability flusher is signalled
    to run. *)
Definition triggerJournalFlush : M unit :=
  modify (fun w => set_journalFlushes (journalFlushes w + 1) w) ;;;
  emit EvTriggerJournalFlush.

(** Modelled from the spec: [TimerHolder] is declared outside this file; it
    is a start/stop timer scoped to one batch write.  Construction reads
    the clock; leaving the scope records one more batch and the elapsed
    time in the [TimerStats] it holds. *)
Definition TimerHolder_start : M Z :=
  w <- get ;; emit EvTimerStart ;;; ret (clock w).

(** Modelled from the spec: recording a timing counts one batch and adds
    the elapsed time to the aggregate; both are 64-bit integers, and the
    additions wrap around. *)
Definition TimerStats_record (millis : Z) (t : TimerStats) : TimerStats :=
  mkTimerStats (to_int64 (_num t + 1)) (to_int64 (_totalMillis t + millis)).

(** Modelled from the spec: the timer stops when the scope of the batch
    write is left. *)
Definition TimerHolder_stop (started : Z) : M unit :=
  modify (fun w =>
    set_oplogWriterMetric
      (mkStats (_batchSize (oplogWriterMetric w))
         (TimerStats_record (clock w - started) (getBatches (oplogWriterMetric w))))
      w) ;;;
  emit EvTimerStop.

(** Modelled from the spec: the retryable condition is the transient write
    conflict. *)
Definition isRetryable (s : Status) : bool := ErrorCodes_eqb (code s) WriteConflict.

(** Modelled from the spec: [storage_helpers::insertBatchAndHandleRetry]
    is declared outside this file.  It is the retry-while-retryable
    combinator: the unit of work is run again on a transient write
    conflict, an unbounded number of times, and the caller sees only the
    final success or a non-retryable failure.  [fuel] bounds the number of
    attempts the model follows. *)
Fixpoint insertBatchAndHandleRetry (fuel : nat) (docs : list InsertStatement)
  (insertFn : list InsertStatement -> M Status) : M Status :=
  match fuel with
  | O => outOfFuel
  | S fuel' =>
    status <- insertFn docs ;;
    if isRetryable status
    then insertBatchAndHandleRetry fuel' docs insertFn
    else ret status
  end.

(** ** The source file *)

Definition insertDocsToOplogCollection (docs : list InsertStatement) : M Status :=
  emit (EvWuowBegin OplogColl) ;;;
  (* Acquire the collection lock. *)
  emit (EvAcquireLocks OplogColl) ;;;
  w <- get ;;
  match oplogColl w with
  | None =>
    emit (EvWuowAbort OplogColl) ;;;
    ret (mkStatus NamespaceNotFound "Oplog collection does not exist")
  | Some coll =>
    status <- insertDocuments OplogColl docs ;;
    if negb (isOK status)
    then emit (EvWuowAbort OplogColl) ;;; ret status
    else
      modify (set_oplogColl (Some (coll ++ docs))) ;;;
      emit (EvWuowCommit OplogColl) ;;;
      ret Status_OK
  end.

Definition insertDocsToChangeCollection (docs : list InsertStatement) : M Status :=
  emit (EvWuowBegin ChangeColl) ;;;
  (* Acquire the collection lock. *)
  emit (EvAcquireLocks ChangeColl) ;;;
  status <- insertDocuments ChangeColl docs ;;
  if negb (isOK status)
  then emit (EvWuowAbort ChangeColl) ;;; ret status
  else
    modify (fun w => set_changeColl (changeColl w ++ docs) w) ;;;
    emit (EvWuowCommit ChangeColl) ;;;
    ret Status_OK.

Definition OplogWriterStats_incrementBatchSize (n : Z) : M unit :=
  modify (fun w => set_oplogWriterMetric (incrementBatchSize n (oplogWriterMetric w)) w) ;;;
  emit (EvIncrementBatchSize n).

(** The scoped admission priority and the unreplicated-writes block only
    mark the operation context; the insert is what can fail. *)
Definition _writeOplogBatchImpl (fuel : nat) (docs : list InsertStatement)
  (writeDocsFn : list InsertStatement -> M Status) : M unit :=
  status <- insertBatchAndHandleRetry fuel docs writeDocsFn ;;
  fassert 8352101 status.

(** The loop that creates insert statements from the oplog entries. *)
Fixpoint createInsertStatements (ops : list BSONObj) (docs : list InsertStatement)
  : M (list InsertStatement) :=
  match ops with
  | [] => ret docs
  | op :: rest =>
    opTime <- invariantStatusOK (parseFromOplogEntry op) ;;
    createInsertStatements rest
      (docs ++ [InsertStatement_of op (getTimestamp opTime) (getTerm opTime)])
  end.

(** [docs.back()]; the vector is never empty where the source calls it. *)
Definition back {A} (l : list A) (d : A) : A := last l d.

Definition noDoc : InsertStatement :=
  mkInsert (mkBSONObj None None "") (mkOpTime 0 0).

Definition writeOplogBatch (fuel : nat) (ops : list BSONObj) : M (StatusWith OpTime) :=
  invariant (negb (vector_empty ops)) "!ops.empty()" ;;;
  OplogWriterStats_incrementBatchSize (Z.of_nat (List.length ops)) ;;;
  timer <- TimerHolder_start ;;
  writeChangeCollection <- isChangeCollectionsModeActive ;;
  (* Create insert statements from the oplog entries. *)
  docs <- createInsertStatements ops [] ;;
  (* Write to the oplog collection, this step will be skipped during
     startup recovery. *)
  (if negb (skipWritesToOplogColl env)
   then _writeOplogBatchImpl fuel docs insertDocsToOplogCollection ;;;
        onWriteOplogCollection docs
   else ret tt) ;;;
  (* Write to the change collection in a separate storage transaction. *)
  (if writeChangeCollection
   then _writeOplogBatchImpl fuel docs insertDocsToChangeCollection ;;;
        onWriteChangeCollection docs
   else ret tt) ;;;
  TimerHolder_stop timer ;;;
  ret (SW_Value (oplogSlot (back docs noDoc))).

Definition finalizeOplogBatch (lastOpTimeAndWallTime : OpTimeAndWallTime)
  (flushJournal : bool) : M unit :=
  (* 1. Update oplog visibility by notifying the storage engine of the
     latest opTime. *)
  oplogDiskLocRegister (getTimestamp (opTime lastOpTimeAndWallTime)) true ;;;
  (* 2. Advance the lastWritten opTime to the last opTime in batch. *)
  setMyLastWrittenOpTimeAndWallTimeForward lastOpTimeAndWallTime ;;;
  (* 3. Trigger the journal flusher. *)
  if flushJournal then triggerJournalFlush else ret tt.

Inductive LoopCtl : Type := LoopContinue | LoopReturn.

Definition noOp : BSONObj := mkBSONObj None None "".

(** The fetch of the k-th batch; the batcher waits at most one second. *)
Definition batcher_getNextBatch : M OplogWriterBatch :=
  w <- get ;;
  modify (set_fetches (S (fetches w))) ;;;
  emit (EvGetNextBatch (fetches w)) ;;;
  ret (getNextBatch env (fetches w)).

(** The rest of the loop body, for a batch that is not empty. *)
Definition _run_batch (flushJournal : bool) (fuel : nat) (ops : list BSONObj)
  : M LoopCtl :=
  (* Extract the opTime and wallTime of the last op in the batch. *)
  lastOpTimeAndWallTime <-
    invariantStatusOK (parseOpTimeAndWallTimeFromOplogEntry (back ops noOp)) ;;
  (* Write the operations in this batch. 'writeOplogBatch' returns the
     optime of the last op that was written, which should be the last
     optime in the batch. *)
  swLastOpTime <- writeOplogBatch fuel ops ;;
  if ErrorCodes_eqb (code (getStatus swLastOpTime)) InterruptedAtShutdown
  then ret LoopReturn
  else
    lastOpTime <- fassertNoTrace 8543103 swLastOpTime ;;
    invariant (OpTime_eqb lastOpTime (opTime lastOpTimeAndWallTime))
      "swLastOpTime.getValue() == lastOpTimeAndWallTime.opTime" ;;;
    (* Update various things that care about our last written optime. *)
    finalizeOplogBatch lastOpTimeAndWallTime flushJournal ;;;
    (* Push the entries to the applier's buffer, may be blocked if buffer
       is full. *)
    push ops ;;;
    ret LoopContinue.

(** One pass through the body of [while (true)] in [_run]. *)
Definition _run_body (flushJournal : bool) (fuel : nat) : M LoopCtl :=
  w0 <- get ;;
  let k := fetches w0 in
  (* For pausing replication in tests. *)
  (if rsSyncApplyStop env k then emit EvPauseWhileSet else ret tt) ;;;
  (* Transition to SECONDARY state, if possible. *)
  emit EvFinishRecoveryIfEligible ;;;
  batch <- batcher_getNextBatch ;;
  (* Signal the apply buffer to enter or exit drain mode if it is not. *)
  w1 <- get ;;
  (if negb (Bool.eqb (_applyBufferInDrainMode w1) (exhausted batch))
   then
     (if _applyBufferInDrainMode w1 then exitDrainMode else enterDrainMode) ;;;
     modify (set_applyBufferInDrainMode (exhausted batch))
   else ret tt) ;;;
  if empty batch
  then (if inShutdown env k then ret LoopReturn else ret LoopContinue)
  else _run_batch flushJournal fuel (releaseBatch batch).

Fixpoint _run_loop (flushJournal : bool) (fuel iters : nat) : M unit :=
  match iters with
  | O => outOfFuel
  | S iters' =>
    ctl <- _run_body flushJournal fuel ;;
    match ctl with
    | LoopReturn => ret tt
    | LoopContinue => _run_loop flushJournal fuel iters'
    end
  end.

Definition _run (fuel iters : nat) : M unit :=
  invariant (negb (arbiter env)) "!_replCoord->getMemberState().arbiter()" ;;;
  let flushJournal := negb (isEphemeral env) in
  _run_loop flushJournal fuel iters.

End Writer.

(** * Vocabulary for the properties *)

(** [steps R m]: whatever [m] does, and however it ends, the world it
    leaves is [R]-related to the world it started from.  For a preorder
    [R] this composes along [bind], which is how invariants of the main
    loop are carried from the calls on collaborators up to [_run]. *)
Definition steps {A} (R : World -> World -> Prop) (m : M A) : Prop :=
  forall w, R w (world_of (m w)).

(** [ext P w w']: the trace of [w'] is the trace of [w] followed by new
    events [t], and [P t]. *)
Definition ext (P : list Event -> Prop) (w w' : World) : Prop :=
  exists t, trace w' = trace w ++ t /\ P t.

Definition isDone {A} (r : Result A) : bool :=
  match r with
  | Done _ _ => true
  | _ => false
  end.

(** *** Kinds of events *)

Definition isWriteEvent (e : Event) : bool :=
  match e with
  | EvIncrementBatchSize _ | EvTimerStart | EvTimerStop
  | EvWuowBegin _ | EvAcquireLocks _ | EvInsert _ _ _
  | EvWuowCommit _ | EvWuowAbort _
  | EvOnWriteOplogCollection _ | EvOnWriteChangeCollection _ => true
  | _ => false
  end.

Definition isFinalizeEvent (e : Event) : bool :=
  match e with
  | EvOplogDiskLocRegister _ _ | EvSetMyLastWrittenForward _
  | EvTriggerJournalFlush => true
  | _ => false
  end.

Definition isDrainEvent (e : Event) : bool :=
  match e with
  | EvEnterDrainMode | EvExitDrainMode => true
  | _ => false
  end.

(** The events of the first half of the loop body. *)
Definition isFetchEvent (e : Event) : bool :=
  match e with
  | EvPauseWhileSet | EvFinishRecoveryIfEligible | EvGetNextBatch _
  | EvEnterDrainMode | EvExitDrainMode => true
  | _ => false
  end.

(** The store an event belongs to, if any. *)
Definition sinkOf (e : Event) : option Sink :=
  match e with
  | EvWuowBegin s | EvAcquireLocks s | EvInsert s _ _
  | EvWuowCommit s | EvWuowAbort s => Some s
  | EvOnWriteOplogCollection _ => Some OplogColl
  | EvOnWriteChangeCollection _ => Some ChangeColl
  | _ => None
  end.

Definition Sink_eqb (a b : Sink) : bool :=
  match a, b with
  | OplogColl, OplogColl | ChangeColl, ChangeColl => true
  | _, _ => false
  end.

(** A write on store [s] begins / commits. *)
Definition isBegin (s : Sink) (e : Event) : bool :=
  match e with
  | EvWuowBegin s' => Sink_eqb s s'
  | _ => false
  end.

Definition isCommit (s : Sink) (e : Event) : bool :=
  match e with
  | EvWuowCommit s' => Sink_eqb s s'
  | _ => false
  end.

(** *** The first half of the loop body

    The pause point, the state transition, the fetch and the drain-mode
    signal are straight-line code; [afterFetch] is the world they leave
    and [fetchTrace] the events they add. *)

Definition drainSignal (flag exh : bool) : list Event :=
  if Bool.eqb flag exh then []
  else if flag then [EvExitDrainMode] else [EvEnterDrainMode].

Definition fetchTrace (env : Env) (w : World) : list Event :=
  (if rsSyncApplyStop env (fetches w) then [EvPauseWhileSet] else [])
  ++ [EvFinishRecoveryIfEligible; EvGetNextBatch (fetches w)]
  ++ drainSignal (_applyBufferInDrainMode w)
       (exhausted (getNextBatch env (fetches w))).

Definition afterFetch (env : Env) (w : World) : World :=
  let exh := exhausted (getNextBatch env (fetches w)) in
  mkWorld exh (S (fetches w)) (oplogWriterMetric w) (clock w) (applyBuffer w)
    (if Bool.eqb (_applyBufferInDrainMode w) exh
     then applyBufferDrainMode w else exh)
    (myLastWritten w) (oplogColl w) (changeColl w) (insertScript w)
    (oplogVisibility w) (journalFlushes w) (changeCollectionsModeActive w)
    (trace w ++ fetchTrace env w).

(** *** Finalization and push *)

Definition finalizeTrace (t : OpTimeAndWallTime) (flushJournal : bool) : list Event :=
  [EvOplogDiskLocRegister (getTimestamp (opTime t)) true;
   EvSetMyLastWrittenForward t]
  ++ (if flushJournal then [EvTriggerJournalFlush] else []).

Definition afterFinalize (t : OpTimeAndWallTime) (flushJournal : bool) (w : World)
  : World :=
  mkWorld (_applyBufferInDrainMode w) (fetches w) (oplogWriterMetric w) (clock w)
    (applyBuffer w) (applyBufferDrainMode w)
    (advanceForward t (myLastWritten w)) (oplogColl w) (changeColl w)
    (insertScript w) (getTimestamp (opTime t))
    (if flushJournal then journalFlushes w + 1 else journalFlushes w)
    (changeCollectionsModeActive w)
    (trace w ++ finalizeTrace t flushJournal).

Definition afterPush (ops : list BSONObj) (w : World) : World :=
  set_trace (trace w ++ [EvPush ops]) (set_applyBuffer (applyBuffer w ++ ops) w).

(** A trace in which finalization events occur only in whole, ordered
    blocks: the visibility registration (ordered commit, at the timestamp
    of the position), then the advance of LastWrittenPosition, then, on a
    non-ephemeral medium and only there, the journal-flush trigger. *)
Inductive FinalizeOrdered (ephemeral : bool) : list Event -> Prop :=
| FO_nil : FinalizeOrdered ephemeral []
| FO_other e t :
    isFinalizeEvent e = false ->
    FinalizeOrdered ephemeral t ->
    FinalizeOrdered ephemeral (e :: t)
| FO_durable x t :
    ephemeral = false ->
    FinalizeOrdered ephemeral t ->
    FinalizeOrdered ephemeral
      (EvOplogDiskLocRegister (getTimestamp (opTime x)) true
       :: EvSetMyLastWrittenForward x :: EvTriggerJournalFlush :: t)
| FO_ephemeral x t :
    ephemeral = true ->
    FinalizeOrdered ephemeral t ->
    FinalizeOrdered ephemeral
      (EvOplogDiskLocRegister (getTimestamp (opTime x)) true
       :: EvSetMyLastWrittenForward x :: t).

(** The relation kept by everything the loop body does after the drain-mode
    signal: the writer's flag, the apply buffer's drain mode and the
    number of fetches stay as they are, and no drain-mode call is made. *)
Definition keepsDrainMode (w w' : World) : Prop :=
  _applyBufferInDrainMode w' = _applyBufferInDrainMode w
  /\ applyBufferDrainMode w' = applyBufferDrainMode w
  /\ fetches w' = fetches w
  /\ ext (Forall (fun e => isDrainEvent e = false)) w w'.

(** The relation kept by the two sink writes: the stats are not touched. *)
Definition keepsMetric (w w' : World) : Prop :=
  oplogWriterMetric w' = oplogWriterMetric w.

(** *** LastWrittenPosition *)

Definition lastWritten_le (w w' : World) : Prop :=
  OpTime_leb (opTime (myLastWritten w)) (opTime (myLastWritten w')) = true.

(** *** The write path *)

(** A record is well formed for the writer when its position can be
    extracted. *)
Definition parses (op : BSONObj) : bool :=
  match position op with
  | Some _ => true
  | None => false
  end.

(** The insert statement built from a well-formed record. *)
Definition insertOf (op : BSONObj) : InsertStatement :=
  mkInsert op
    (match position op with
     | Some t => t
     | None => mkOpTime 0 0
     end).

(** The world after the batch-size increment and the start of the timer,
    the first two effects of [writeOplogBatch]. *)
Definition afterStart (ops : list BSONObj) (w : World) : World :=
  set_trace
    (trace w ++ [EvIncrementBatchSize (Z.of_nat (List.length ops)); EvTimerStart])
    (set_oplogWriterMetric
       (incrementBatchSize (Z.of_nat (List.length ops)) (oplogWriterMetric w)) w).

(** The world after the timer has stopped, the last effect of
    [writeOplogBatch]. *)
Definition afterStop (started : Z) (w : World) : World :=
  set_trace (trace w ++ [EvTimerStop])
    (set_oplogWriterMetric
       (mkStats (_batchSize (oplogWriterMetric w))
          (TimerStats_record (clock w - started) (getBatches (oplogWriterMetric w))))
       w).

(** The two sink writes of [writeOplogBatch], each followed by its
    observer call. *)
Definition writeBothSinks (env : Env) (fuel : nat) (writeChangeCollection : bool)
  (docs : list InsertStatement) : M unit :=
  (if negb (skipWritesToOplogColl env)
   then _writeOplogBatchImpl fuel docs (insertDocsToOplogCollection env) ;;;
        onWriteOplogCollection docs
   else ret tt) ;;;
  (if writeChangeCollection
   then _writeOplogBatchImpl fuel docs (insertDocsToChangeCollection env) ;;;
        onWriteChangeCollection docs
   else ret tt).

(** The world after one attempt of a sink write that reached the storage
    engine's insert: the unit of work commits if the engine answered OK and
    aborts otherwise. *)
Definition afterInsert (env : Env) (s : Sink) (docs : list InsertStatement)
  (w : World) : World :=
  let st := hd Status_OK (insertScript w) in
  mkWorld (_applyBufferInDrainMode w) (fetches w) (oplogWriterMetric w)
    (clock w + insertMillis env) (applyBuffer w) (applyBufferDrainMode w)
    (myLastWritten w)
    (if isOK st
     then match s, oplogColl w with
          | OplogColl, Some coll => Some (coll ++ docs)
          | _, c => c
          end
     else oplogColl w)
    (if isOK st
     then match s with
          | ChangeColl => changeColl w ++ docs
          | OplogColl => changeColl w
          end
     else changeColl w)
    (tl (insertScript w)) (oplogVisibility w) (journalFlushes w)
    (changeCollectionsModeActive w)
    (trace w ++ [EvWuowBegin s; EvAcquireLocks s; EvInsert s docs st;
                 if isOK st then EvWuowCommit s else EvWuowAbort s]).

(** The events of the attempts of one sink write, in order.  Every attempt
    begins a unit of work and acquires the locks; it ends with an abort
    (the store is missing, or the insert failed) or with a commit, and a
    commit ends the write.  The flag tells whether the write committed. *)
Inductive WriteAttempts (s : Sink) (docs : list InsertStatement)
  : bool -> list Event -> Prop :=
| WA_stop : WriteAttempts s docs false []
| WA_commit st :
    isOK st = true ->
    WriteAttempts s docs true
      [EvWuowBegin s; EvAcquireLocks s; EvInsert s docs st; EvWuowCommit s]
| WA_abort st b t :
    isOK st = false ->
    WriteAttempts s docs b t ->
    WriteAttempts s docs b
      (EvWuowBegin s :: EvAcquireLocks s :: EvInsert s docs st
       :: EvWuowAbort s :: t)
| WA_missing b t :
    WriteAttempts s docs b t ->
    WriteAttempts s docs b
      (EvWuowBegin s :: EvAcquireLocks s :: EvWuowAbort s :: t).

(** *** Concrete runs *)

Definition exampleRecord (term ts : Z) : BSONObj :=
  mkBSONObj (Some (mkOpTime ts term)) (Some (1000 * ts)) "op".

(** A fresh node: nothing written yet, an empty oplog collection, the
    change-feed mode inactive, a storage engine that accepts every insert. *)
Definition exampleWorld : World :=
  mkWorld false 0 (mkStats 0 (mkTimerStats 0 0)) 0 [] false
    (mkOpTimeAndWallTime (mkOpTime 0 0) 0) (Some []) [] [] 0 0 false [].

(** A durable medium, oplog writes enabled, no pause; the write buffer
    hands out [first] and is exhausted and empty from then on, and
    shutdown is requested after the first iteration. *)
Definition exampleEnv (first : OplogWriterBatch) : Env :=
  mkEnv false false false (fun _ => false)
    (fun k => match k with O => first | S _ => mkBatch [] true end)
    (fun k => match k with O => false | S _ => true end)
    3.

Definition twoRecords : list BSONObj :=
  [exampleRecord 1 10; exampleRecord 1 11].

(** The write buffer is caught up from the start: the first fetch is
    already exhausted (and empty). *)
Definition caughtUpEnv : Env := exampleEnv (mkBatch [] true).

(** As [exampleWorld], with the change-feed mode active. *)
Definition changeFeedWorld : World :=
  mkWorld false 0 (mkStats 0 (mkTimerStats 0 0)) 0 [] false
    (mkOpTimeAndWallTime (mkOpTime 0 0) 0) (Some []) [] [] 0 0 true [].

(** As [exampleWorld], but the storage engine answers the next insert
    with the shutdown condition. *)
Definition shutdownWorld : World :=
  set_insertScript [mkStatus InterruptedAtShutdown "interrupted at shutdown"]
    exampleWorld.

(** As [exampleWorld], but the oplog collection does not exist. *)
Definition noOplogWorld : World := set_oplogColl None exampleWorld.

(** As [exampleEnv], but the writer is configured to skip the writes to
    the oplog collection, as it is during startup recovery. *)
Definition skipEnv : Env :=
  mkEnv false false true (fun _ => false)
    (fun k => match k with O => mkBatch twoRecords false | S _ => mkBatch [] true end)
    (fun k => match k with O => false | S _ => true end)
    3.

(** *** Stores, forwarding and the whole run *)

(** The oplog collection, if it exists, with [docs] appended. *)
Definition appendDocs (docs : list InsertStatement)
  (c : option (list InsertStatement)) : option (list InsertStatement) :=
  option_map (fun coll => coll ++ docs) c.

(** The records of the [n] batches fetched from the [k]-th fetch on, in
    fetch order. *)
Definition fetched (env : Env) (k n : nat) : list BSONObj :=
  List.concat (map (fun i => releaseBatch (getNextBatch env i)) (seq k n)).

(** The relation kept by the write path: it touches nothing but the
    stores, the storage engine's script, the clock and the stats, and it
    makes no call outside the write path. *)
Definition keepsReplState (w w' : World) : Prop :=
  applyBuffer w' = applyBuffer w
  /\ applyBufferDrainMode w' = applyBufferDrainMode w
  /\ _applyBufferInDrainMode w' = _applyBufferInDrainMode w
  /\ fetches w' = fetches w
  /\ myLastWritten w' = myLastWritten w
  /\ oplogVisibility w' = oplogVisibility w
  /\ journalFlushes w' = journalFlushes w
  /\ changeCollectionsModeActive w' = changeCollectionsModeActive w
  /\ ext (Forall (fun e => isWriteEvent e = true)) w w'.

(** The writer's flag and the apply buffer's drain mode agree. *)
Definition drainModeInSync (w : World) : Prop :=
  _applyBufferInDrainMode w = applyBufferDrainMode w.

(** A pass through the loop body that did not come back to the loop, left
    in world [w']: the batch was not empty and nothing of it was
    forwarded; its write may have been begun (the record counter may
    have been incremented by the size of the batch) and the oplog
    collection may already hold its insert statements. *)
Definition inFlight (env : Env) (w w' : World) : Prop :=
  let ops := releaseBatch (getNextBatch env (fetches w)) in
  empty (getNextBatch env (fetches w)) = false
  /\ fetches w' = S (fetches w)
  /\ applyBuffer w' = applyBuffer w
  /\ myLastWritten w' = myLastWritten w
  /\ changeColl w' = changeColl w
  /\ (oplogColl w' = oplogColl w
      \/ (skipWritesToOplogColl env = false
          /\ oplogColl w' = appendDocs (map insertOf ops) (oplogColl w)))
  /\ (_batchSize (oplogWriterMetric w') = _batchSize (oplogWriterMetric w)
      \/ _batchSize (oplogWriterMetric w')
         = to_int64 (_batchSize (oplogWriterMetric w)
                     + Z.of_nat (List.length ops))).

(** A batch on which a parse of the loop fails with status [s]: the parse
    of the last record, for its position and wall-clock time, or the parse
    of one of the records for its position. *)
Definition failsToParse (ops : list BSONObj) (s : Status) : Prop :=
  parseOpTimeAndWallTimeFromOplogEntry (back ops noOp) = SW_Error s
  \/ exists op, In op ops /\ parseFromOplogEntry op = SW_Error s.

(** The storage engine's script only gets shorter: what is left of it is
    a suffix of what it was. *)
Definition scriptShrinks (w w' : World) : Prop :=
  exists m : nat, insertScript w' = skipn m (insertScript w).

(** A batch the loop body can process: every record has a position and
    the last one has a wall-clock time. *)
Definition wellFormed (ops : list BSONObj) : bool :=
  forallb parses ops
  && match wallClockTime (back ops noOp) with
     | Some _ => true
     | None => false
     end.

(** The [k]-th pass neither ends the loop nor meets a malformed record:
    its batch is empty while the system is not shutting down, or it is
    not empty and well formed. *)
Definition goesOn (env : Env) (k : nat) : bool :=
  if empty (getNextBatch env k)
  then negb (inShutdown env k)
  else wellFormed (releaseBatch (getNextBatch env k)).

(** * Reasoning about runs *)

(** ** 64-bit counters *)

Lemma to_int64_inInt64 z : inInt64 (to_int64 z).
Proof.
  unfold inInt64, to_int64, int64_min, int64_max.
  pose proof (Z.mod_pos_bound (z + two63) two64 eq_refl) as H.
  unfold two63, two64 in *. lia.
Qed.

Lemma to_int64_small z : inInt64 z -> to_int64 z = z.
Proof.
  unfold inInt64, to_int64, int64_min, int64_max. intro H.
  rewrite Z.mod_small; unfold two63, two64 in *; lia.
Qed.

Lemma to_int64_idem z : to_int64 (to_int64 z) = to_int64 z.
Proof. apply to_int64_small, to_int64_inInt64. Qed.

Lemma to_int64_congr x y c :
  to_int64 x = to_int64 y -> to_int64 (x + c) = to_int64 (y + c).
Proof.
  unfold to_int64. intro H.
  assert (E : (x + two63) mod two64 = (y + two63) mod two64) by lia.
  replace (x + c + two63) with ((x + two63) + c) by lia.
  replace (y + c + two63) with ((y + two63) + c) by lia.
  rewrite <- (Z.add_mod_idemp_l (x + two63)) by (unfold two64; lia).
  rewrite <- (Z.add_mod_idemp_l (y + two63)) by (unfold two64; lia).
  rewrite E. reflexivity.
Qed.

Lemma to_int64_add_l x c : to_int64 (to_int64 x + c) = to_int64 (x + c).
Proof. apply to_int64_congr, to_int64_idem. Qed.

Lemma Counter64_increment_wraps n c :
  Counter64_increment n c = to_int64 (c + n).
Proof.
  unfold Counter64_increment, to_int64, to_uint64.
  replace (c + n mod two64 + two63) with ((c + two63) + n mod two64) by lia.
  replace (c + n + two63) with ((c + two63) + n) by lia.
  rewrite Z.add_mod_idemp_r by (unfold two64; lia). reflexivity.
Qed.

Lemma Counter64_increment_exact n c :
  inInt64 (c + n) -> Counter64_increment n c = c + n.
Proof. intro H. rewrite Counter64_increment_wraps. apply to_int64_small, H. Qed.

Lemma Counter64_increment_inInt64 n c : inInt64 (Counter64_increment n c).
Proof. apply to_int64_inInt64. Qed.

(** ** The monad *)

Lemma bind_Done_inv {A B} (m : M A) (k : A -> M B) w b w' :
  bind m k w = Done b w' ->
  exists a w1, m w = Done a w1 /\ k a w1 = Done b w'.
Proof.
  unfold bind. destruct (m w) as [a w1|f w1|w1]; intro H; try discriminate.
  exists a, w1. split; [reflexivity | exact H].
Qed.

Lemma bind_Done {A B} (m : M A) (k : A -> M B) w a w1 :
  m w = Done a w1 -> bind m k w = k a w1.
Proof. intro H. unfold bind. rewrite H. reflexivity. Qed.

Lemma bind_Halt {A B} (m : M A) (k : A -> M B) w f w1 :
  m w = Halt f w1 -> bind m k w = Halt f w1.
Proof. intro H. unfold bind. rewrite H. reflexivity. Qed.

Lemma bind_OutOfFuel {A B} (m : M A) (k : A -> M B) w w1 :
  m w = OutOfFuel w1 -> bind m k w = OutOfFuel w1.
Proof. intro H. unfold bind. rewrite H. reflexivity. Qed.

(** ** Relations that every step of a computation respects *)

Section Steps.

Variable R : World -> World -> Prop.
Hypothesis R_refl : forall w, R w w.
Hypothesis R_trans : forall w1 w2 w3, R w1 w2 -> R w2 w3 -> R w1 w3.

Lemma steps_ret {A} (a : A) : steps R (ret a).
Proof. intro w. apply R_refl. Qed.

Lemma steps_halt {A} f : steps R (@halt A f).
Proof. intro w. apply R_refl. Qed.

Lemma steps_outOfFuel {A} : steps R (@outOfFuel A).
Proof. intro w. apply R_refl. Qed.

Lemma steps_get : steps R get.
Proof. intro w. apply R_refl. Qed.

Lemma steps_modify f : (forall w, R w (f w)) -> steps R (modify f).
Proof. intros H w. apply H. Qed.

Lemma steps_bind {A B} (m : M A) (k : A -> M B) :
  steps R m -> (forall a, steps R (k a)) -> steps R (bind m k).
Proof.
  intros Hm Hk w. unfold bind. specialize (Hm w).
  destruct (m w) as [a w1|f w1|w1]; simpl in *; try exact Hm.
  eapply R_trans; [exact Hm | apply Hk].
Qed.

Lemma steps_invariant b expr : steps R (invariant b expr).
Proof. destruct b; [apply steps_ret | apply steps_halt]. Qed.

Lemma steps_invariantStatusOK {A} (sw : StatusWith A) : steps R (invariantStatusOK sw).
Proof. destruct sw; [apply steps_ret | apply steps_halt]. Qed.

Lemma steps_fassert msgid s : steps R (fassert msgid s).
Proof. unfold fassert. destruct (isOK s); [apply steps_ret | apply steps_halt]. Qed.

Lemma steps_fassertNoTrace {A} msgid (sw : StatusWith A) :
  steps R (fassertNoTrace msgid sw).
Proof. destruct sw; [apply steps_ret | apply steps_halt]. Qed.

Lemma steps_createInsertStatements ops docs :
  steps R (createInsertStatements ops docs).
Proof.
  revert docs. induction ops as [|op rest IH]; intro docs; simpl.
  - apply steps_ret.
  - apply steps_bind; [apply steps_invariantStatusOK | intro; apply IH].
Qed.

Lemma steps_insertBatchAndHandleRetry fuel docs insertFn :
  (forall d, steps R (insertFn d)) ->
  steps R (insertBatchAndHandleRetry fuel docs insertFn).
Proof.
  intro H. induction fuel as [|fuel IH]; simpl.
  - apply steps_outOfFuel.
  - apply steps_bind; [apply H|]. intro st.
    destruct (isRetryable st); [exact IH | apply steps_ret].
Qed.

Lemma steps__writeOplogBatchImpl fuel docs insertFn :
  (forall d, steps R (insertFn d)) ->
  steps R (_writeOplogBatchImpl fuel docs insertFn).
Proof.
  intro H. unfold _writeOplogBatchImpl.
  apply steps_bind; [apply steps_insertBatchAndHandleRetry; exact H|].
  intro; apply steps_fassert.
Qed.

End Steps.

(** ** The loop body up to the fetched batch *)

Lemma _run_body_unfold env flushJournal fuel w :
  _run_body env flushJournal fuel w =
  let batch := getNextBatch env (fetches w) in
  if empty batch
  then Done (if inShutdown env (fetches w) then LoopReturn else LoopContinue)
         (afterFetch env w)
  else _run_batch env flushJournal fuel (releaseBatch batch) (afterFetch env w).
Proof.
  unfold _run_body. generalize (_run_batch env flushJournal fuel). intro rest.
  destruct w as [flag k met clk ab abd lw oc cc scr vis jf act tr].
  unfold afterFetch, fetchTrace, drainSignal, batcher_getNextBatch,
    enterDrainMode, exitDrainMode, emit, modify, get, ret, bind, empty.
  simpl.
  destruct (rsSyncApplyStop env k); simpl;
    destruct (getNextBatch env k) as [ops exh]; simpl;
    destruct exh, flag, ops, (inShutdown env k);
    simpl; rewrite <- ?app_assoc; reflexivity.
Qed.

(** ** From the calls on collaborators to the whole run

    A relation is respected by the whole of [_run] as soon as it is
    respected by the state updates and events of the write path, by the
    push, by [finalizeOplogBatch] as a whole and by the first half of the
    loop body as a whole. *)

Ltac steps_tac rf tr leaf :=
  repeat first
    [ solve [leaf]
    | apply (steps_ret _ rf)
    | apply (steps_halt _ rf)
    | apply (steps_outOfFuel _ rf)
    | apply (steps_get _ rf)
    | apply (steps_invariant _ rf)
    | apply (steps_invariantStatusOK _ rf)
    | apply (steps_fassert _ rf)
    | apply (steps_fassertNoTrace _ rf)
    | apply (steps_createInsertStatements _ rf tr)
    | apply (steps_bind _ tr); [ | intro ]
    | match goal with
      | |- steps _ (if ?b then _ else _) => destruct b
      | |- steps _ (match ?x with _ => _ end) => destruct x
      end ].

Section RunSteps.

Variable env : Env.
Variable R : World -> World -> Prop.
Variable flushJournal : bool.
Hypothesis R_refl : forall w, R w w.
Hypothesis R_trans : forall w1 w2 w3, R w1 w2 -> R w2 w3 -> R w1 w3.
Hypothesis R_emit : forall e w,
  isWriteEvent e = true -> R w (set_trace (trace w ++ [e]) w).
Hypothesis R_insertScript : forall v w, R w (set_insertScript v w).
Hypothesis R_clock : forall v w, R w (set_clock v w).
Hypothesis R_oplogColl : forall v w, R w (set_oplogColl v w).
Hypothesis R_changeColl : forall v w, R w (set_changeColl v w).
Hypothesis R_metric : forall v w, R w (set_oplogWriterMetric v w).
Hypothesis R_push : forall ops, steps R (push ops).
Hypothesis R_finalize : forall t, steps R (finalizeOplogBatch t flushJournal).
Hypothesis R_fetch : forall w, R w (afterFetch env w).

Ltac leaf :=
  first
    [ apply steps_modify; intro; apply R_emit; reflexivity
    | apply steps_modify; intro;
      first [ apply R_insertScript | apply R_clock | apply R_oplogColl
            | apply R_changeColl | apply R_metric ]
    | apply R_push
    | apply R_finalize ].

Lemma run_steps_insertDocuments s docs : steps R (insertDocuments env s docs).
Proof. unfold insertDocuments, emit. steps_tac R_refl R_trans leaf. Qed.

Lemma run_steps_insertDocsToOplogCollection docs :
  steps R (insertDocsToOplogCollection env docs).
Proof.
  unfold insertDocsToOplogCollection, emit.
  steps_tac R_refl R_trans ltac:(first [leaf | apply run_steps_insertDocuments]).
Qed.

Lemma run_steps_insertDocsToChangeCollection docs :
  steps R (insertDocsToChangeCollection env docs).
Proof.
  unfold insertDocsToChangeCollection, emit.
  steps_tac R_refl R_trans ltac:(first [leaf | apply run_steps_insertDocuments]).
Qed.

Lemma run_steps__writeOplogBatchImpl_oplog fuel docs :
  steps R (_writeOplogBatchImpl fuel docs (insertDocsToOplogCollection env)).
Proof.
  apply (steps__writeOplogBatchImpl _ R_refl R_trans).
  apply run_steps_insertDocsToOplogCollection.
Qed.

Lemma run_steps__writeOplogBatchImpl_change fuel docs :
  steps R (_writeOplogBatchImpl fuel docs (insertDocsToChangeCollection env)).
Proof.
  apply (steps__writeOplogBatchImpl _ R_refl R_trans).
  apply run_steps_insertDocsToChangeCollection.
Qed.

Lemma run_steps_writeBothSinks fuel active docs :
  steps R (writeBothSinks env fuel active docs).
Proof.
  unfold writeBothSinks, onWriteOplogCollection, onWriteChangeCollection, emit.
  steps_tac R_refl R_trans
    ltac:(first
      [ leaf
      | apply run_steps__writeOplogBatchImpl_oplog
      | apply run_steps__writeOplogBatchImpl_change ]).
Qed.

Lemma run_steps_writeOplogBatch fuel ops : steps R (writeOplogBatch env fuel ops).
Proof.
  unfold writeOplogBatch, OplogWriterStats_incrementBatchSize, TimerHolder_start,
    TimerHolder_stop, isChangeCollectionsModeActive, onWriteOplogCollection,
    onWriteChangeCollection, emit.
  steps_tac R_refl R_trans
    ltac:(first
      [ leaf
      | apply run_steps__writeOplogBatchImpl_oplog
      | apply run_steps__writeOplogBatchImpl_change ]).
Qed.

Lemma run_steps__run_batch fuel ops : steps R (_run_batch env flushJournal fuel ops).
Proof.
  unfold _run_batch.
  steps_tac R_refl R_trans ltac:(first [leaf | apply run_steps_writeOplogBatch]).
Qed.

Lemma run_steps__run_body fuel : steps R (_run_body env flushJournal fuel).
Proof.
  intro w. rewrite _run_body_unfold. cbv zeta.
  destruct (empty (getNextBatch env (fetches w))).
  - apply R_fetch.
  - eapply R_trans; [apply R_fetch | apply run_steps__run_batch].
Qed.

Lemma run_steps__run_loop fuel iters : steps R (_run_loop env flushJournal fuel iters).
Proof.
  induction iters as [|iters IH]; simpl.
  - apply (steps_outOfFuel _ R_refl).
  - apply (steps_bind _ R_trans); [apply run_steps__run_body|].
    intros [|]; [exact IH | apply (steps_ret _ R_refl)].
Qed.

Lemma run_steps__run fuel iters :
  flushJournal = negb (isEphemeral env) -> steps R (_run env fuel iters).
Proof.
  intro E. unfold _run. rewrite <- E.
  apply (steps_bind _ R_trans); [apply (steps_invariant _ R_refl)|].
  intro. apply run_steps__run_loop.
Qed.

End RunSteps.

(** ** The order on positions *)

Ltac optime_cases :=
  unfold OpTime_leb, OpTime_ltb, OpTime_eqb in *;
  repeat match goal with
  | H : context [Z.ltb ?a ?b] |- _ => destruct (Z.ltb_spec a b)
  | H : context [Z.eqb ?a ?b] |- _ => destruct (Z.eqb_spec a b)
  | |- context [Z.ltb ?a ?b] => destruct (Z.ltb_spec a b)
  | |- context [Z.eqb ?a ?b] => destruct (Z.eqb_spec a b)
  end;
  simpl in *; try reflexivity; try discriminate; try lia.

Lemma OpTime_leb_refl a : OpTime_leb a a = true.
Proof. optime_cases. Qed.

Lemma OpTime_leb_trans a b c :
  OpTime_leb a b = true -> OpTime_leb b c = true -> OpTime_leb a c = true.
Proof. intros H1 H2. optime_cases. Qed.

Lemma OpTime_ltb_leb a b : OpTime_ltb a b = true -> OpTime_leb a b = true.
Proof. intro H. optime_cases. Qed.

Lemma OpTime_eqb_refl a : OpTime_eqb a a = true.
Proof. optime_cases. Qed.

Lemma OpTime_eqb_eq a b : OpTime_eqb a b = true -> a = b.
Proof.
  destruct a as [ts1 t1], b as [ts2 t2]. intro H. optime_cases.
  subst. reflexivity.
Qed.

Lemma advanceForward_noop t cur :
  OpTime_ltb (opTime cur) (opTime t) = false -> advanceForward t cur = cur.
Proof. intro H. unfold advanceForward. rewrite H. reflexivity. Qed.

Lemma advanceForward_mono t cur :
  OpTime_leb (opTime cur) (opTime (advanceForward t cur)) = true.
Proof.
  unfold advanceForward.
  destruct (OpTime_ltb (opTime cur) (opTime t)) eqn:E.
  - apply OpTime_ltb_leb. exact E.
  - apply OpTime_leb_refl.
Qed.

Lemma OpTime_ltb_irrefl a : OpTime_ltb a a = false.
Proof. optime_cases. Qed.

Lemma advanceForward_idem t cur :
  advanceForward t (advanceForward t cur) = advanceForward t cur.
Proof.
  unfold advanceForward.
  destruct (OpTime_ltb (opTime cur) (opTime t)) eqn:E.
  - rewrite OpTime_ltb_irrefl. reflexivity.
  - rewrite E. reflexivity.
Qed.

(** ** Finalization, computed *)

Lemma finalizeOplogBatch_run t flushJournal w :
  finalizeOplogBatch t flushJournal w = Done tt (afterFinalize t flushJournal w).
Proof.
  destruct w as [flag k met clk ab abd lw oc cc scr vis jf act tr].
  unfold finalizeOplogBatch, oplogDiskLocRegister,
    setMyLastWrittenOpTimeAndWallTimeForward, triggerJournalFlush,
    afterFinalize, finalizeTrace, emit, modify, ret, bind.
  destruct flushJournal; simpl; rewrite <- ?app_assoc; reflexivity.
Qed.

Lemma push_run ops w : push ops w = Done tt (afterPush ops w).
Proof. reflexivity. Qed.

(** ** LastWrittenPosition never moves backwards *)

Lemma lastWritten_le_refl w : lastWritten_le w w.
Proof. apply OpTime_leb_refl. Qed.

Lemma lastWritten_le_trans w1 w2 w3 :
  lastWritten_le w1 w2 -> lastWritten_le w2 w3 -> lastWritten_le w1 w3.
Proof. apply OpTime_leb_trans. Qed.

Lemma lastWritten_le__run env fuel iters :
  steps lastWritten_le (_run env fuel iters).
Proof.
  apply (run_steps__run env lastWritten_le (negb (isEphemeral env))
           lastWritten_le_refl lastWritten_le_trans);
    try reflexivity;
    try (intros; unfold lastWritten_le; simpl; apply OpTime_leb_refl).
  - intros ops w. apply OpTime_leb_refl.
  - intros t w. rewrite finalizeOplogBatch_run. apply advanceForward_mono.
Qed.

(** ** Trace extensions *)

Lemma ext_refl P w : P [] -> ext P w w.
Proof. intro H. exists []. rewrite app_nil_r. split; [reflexivity | exact H]. Qed.

Lemma ext_trans (P : list Event -> Prop) w1 w2 w3 :
  (forall a b, P a -> P b -> P (a ++ b)) ->
  ext P w1 w2 -> ext P w2 w3 -> ext P w1 w3.
Proof.
  intros Happ [t1 [E1 H1]] [t2 [E2 H2]].
  exists (t1 ++ t2). split.
  - rewrite E2, E1, app_assoc. reflexivity.
  - apply Happ; assumption.
Qed.

Lemma ext_same_trace (P : list Event -> Prop) w w' :
  P [] -> trace w' = trace w -> ext P w w'.
Proof.
  intros H E. exists []. rewrite app_nil_r. split; [exact E | exact H].
Qed.

Lemma ext_emit (P : list Event -> Prop) e w :
  P [e] -> ext P w (set_trace (trace w ++ [e]) w).
Proof. intro H. exists [e]. split; [reflexivity | exact H]. Qed.

Lemma FinalizeOrdered_app eph a b :
  FinalizeOrdered eph a -> FinalizeOrdered eph b -> FinalizeOrdered eph (a ++ b).
Proof.
  intros Ha Hb. induction Ha; simpl.
  - exact Hb.
  - apply FO_other; assumption.
  - apply FO_durable; assumption.
  - apply FO_ephemeral; assumption.
Qed.

Lemma FinalizeOrdered_others eph t :
  Forall (fun e => isFinalizeEvent e = false) t -> FinalizeOrdered eph t.
Proof.
  induction 1; [apply FO_nil | apply FO_other; assumption].
Qed.

Lemma FinalizeOrdered_finalizeTrace eph x :
  FinalizeOrdered eph (finalizeTrace x (negb eph)).
Proof.
  unfold finalizeTrace. destruct eph; simpl.
  - apply FO_ephemeral; [reflexivity | apply FO_nil].
  - apply FO_durable; [reflexivity | apply FO_nil].
Qed.

Lemma fetchTrace_isFetchEvent env w :
  Forall (fun e => isFetchEvent e = true) (fetchTrace env w).
Proof.
  unfold fetchTrace, drainSignal.
  destruct (rsSyncApplyStop env (fetches w)),
    (Bool.eqb (_applyBufferInDrainMode w) (exhausted (getNextBatch env (fetches w)))),
    (_applyBufferInDrainMode w); simpl; repeat constructor.
Qed.

Lemma isFetchEvent_not_finalize e :
  isFetchEvent e = true -> isFinalizeEvent e = false.
Proof. destruct e; simpl; intro H; try reflexivity; discriminate. Qed.

Lemma FinalizeOrdered__run env fuel iters :
  steps (ext (FinalizeOrdered (isEphemeral env))) (_run env fuel iters).
Proof.
  set (eph := isEphemeral env).
  assert (Hrefl : forall w, ext (FinalizeOrdered eph) w w)
    by (intro; apply ext_refl, FO_nil).
  assert (Htrans : forall w1 w2 w3,
            ext (FinalizeOrdered eph) w1 w2 -> ext (FinalizeOrdered eph) w2 w3 ->
            ext (FinalizeOrdered eph) w1 w3)
    by (intros w1 w2 w3; apply ext_trans, FinalizeOrdered_app).
  apply (run_steps__run env _ (negb eph) Hrefl Htrans); try reflexivity;
    try (intros; apply ext_same_trace; [apply FO_nil | reflexivity]).
  - intros e w He. apply ext_emit. apply FO_other; [|apply FO_nil].
    destruct e; simpl in *; try reflexivity; discriminate.
  - intros ops w. rewrite push_run. exists [EvPush ops].
    split; [reflexivity|]. apply FO_other; [reflexivity | apply FO_nil].
  - intros t w. rewrite finalizeOplogBatch_run.
    exists (finalizeTrace t (negb eph)).
    split; [reflexivity | apply FinalizeOrdered_finalizeTrace].
  - intro w. exists (fetchTrace env w). split; [reflexivity|].
    apply FinalizeOrdered_others.
    eapply Forall_impl; [|apply fetchTrace_isFetchEvent].
    intros e. apply isFetchEvent_not_finalize.
Qed.

(** ** The write path, computed *)

Lemma bind_assoc {A B C} (m : M A) (k : A -> M B) (h : B -> M C) w :
  bind (bind m k) h w = bind m (fun a => bind (k a) h) w.
Proof. unfold bind. destruct (m w); reflexivity. Qed.

Lemma InsertStatement_of_insertOf op t :
  position op = Some t ->
  InsertStatement_of op (getTimestamp t) (getTerm t) = insertOf op.
Proof.
  intro H. unfold InsertStatement_of, insertOf. rewrite H.
  destruct t; reflexivity.
Qed.

Lemma createInsertStatements_ok ops docs w :
  forallb parses ops = true ->
  createInsertStatements ops docs w = Done (docs ++ map insertOf ops) w.
Proof.
  revert docs. induction ops as [|op rest IH]; intros docs H; simpl.
  - rewrite app_nil_r. reflexivity.
  - simpl in H. apply andb_true_iff in H. destruct H as [Hop Hrest].
    unfold parses in Hop. unfold parseFromOplogEntry.
    destruct (position op) as [t|] eqn:E; [|discriminate].
    unfold bind; simpl. rewrite IH by exact Hrest.
    rewrite (InsertStatement_of_insertOf op t E), <- app_assoc. reflexivity.
Qed.

Lemma createInsertStatements_malformed ops docs w :
  forallb parses ops = false ->
  createInsertStatements ops docs w =
  Halt (InvariantStatusOK (mkStatus NoSuchKey "missing position")) w.
Proof.
  revert docs. induction ops as [|op rest IH]; intros docs H; simpl.
  - discriminate.
  - simpl in H. unfold parses in H. unfold parseFromOplogEntry.
    destruct (position op) as [t|] eqn:E.
    + unfold bind; simpl. apply IH. exact H.
    + reflexivity.
Qed.

Lemma back_map {A B} (f : A -> B) (l : list A) d d' :
  l <> [] -> back (map f l) d' = f (back l d).
Proof.
  unfold back. induction l as [|a [|b l] IH]; intro H.
  - contradiction.
  - reflexivity.
  - change (last (f b :: map f l) d' = f (last (b :: l) d)).
    apply IH. discriminate.
Qed.

Lemma forallb_back {A} (p : A -> bool) (l : list A) d :
  l <> [] -> forallb p l = true -> p (back l d) = true.
Proof.
  unfold back. induction l as [|a [|b l] IH]; intros H Hall.
  - contradiction.
  - simpl in *. apply andb_true_iff in Hall. apply Hall.
  - change (p (last (b :: l) d) = true). apply IH; [discriminate|].
    simpl in Hall. apply andb_true_iff in Hall. apply Hall.
Qed.

Lemma vector_empty_false {A} (l : list A) : vector_empty l = false <-> l <> [].
Proof. destruct l; simpl; split; intro H; congruence. Qed.

Lemma isRetryable_not_OK st : isRetryable st = true -> isOK st = false.
Proof.
  unfold isRetryable, isOK. destruct (code st); simpl; intro H;
    try reflexivity; discriminate.
Qed.

(** One attempt on the oplog collection. *)
Lemma insertDocsToOplogCollection_missing env docs w :
  oplogColl w = None ->
  insertDocsToOplogCollection env docs w =
  Done (mkStatus NamespaceNotFound "Oplog collection does not exist")
    (set_trace
       (trace w ++ [EvWuowBegin OplogColl; EvAcquireLocks OplogColl;
                    EvWuowAbort OplogColl]) w).
Proof.
  intro H. destruct w as [flag k met clk ab abd lw oc cc scr vis jf act tr].
  simpl in H. subst oc.
  unfold insertDocsToOplogCollection, emit, modify, get, ret, bind. simpl.
  rewrite <- !app_assoc. reflexivity.
Qed.

Lemma insertDocsToOplogCollection_present env docs w coll :
  oplogColl w = Some coll ->
  insertDocsToOplogCollection env docs w =
  Done (if isOK (hd Status_OK (insertScript w)) then Status_OK
        else hd Status_OK (insertScript w))
    (afterInsert env OplogColl docs w).
Proof.
  intro H. destruct w as [flag k met clk ab abd lw oc cc scr vis jf act tr].
  simpl in H. subst oc.
  unfold insertDocsToOplogCollection, insertDocuments, afterInsert,
    emit, modify, get, ret, bind. simpl.
  destruct (isOK (hd Status_OK scr)); simpl; rewrite <- !app_assoc; reflexivity.
Qed.

Lemma insertDocsToChangeCollection_run env docs w :
  insertDocsToChangeCollection env docs w =
  Done (if isOK (hd Status_OK (insertScript w)) then Status_OK
        else hd Status_OK (insertScript w))
    (afterInsert env ChangeColl docs w).
Proof.
  destruct w as [flag k met clk ab abd lw oc cc scr vis jf act tr].
  unfold insertDocsToChangeCollection, insertDocuments, afterInsert,
    emit, modify, get, ret, bind. simpl.
  destruct (isOK (hd Status_OK scr)); simpl; rewrite <- !app_assoc;
    destruct oc; reflexivity.
Qed.

(** ** The events of a sink write *)

Section Attempts.

Variable s : Sink.
Variable insertFn : list InsertStatement -> M Status.

Hypothesis attempt : forall docs w,
  exists st w', insertFn docs w = Done st w' /\
    ((isOK st = true /\ exists st0, isOK st0 = true /\
        trace w' = trace w ++ [EvWuowBegin s; EvAcquireLocks s;
                               EvInsert s docs st0; EvWuowCommit s])
     \/ (isOK st = false /\
         (trace w' = trace w ++ [EvWuowBegin s; EvAcquireLocks s;
                                 EvInsert s docs st; EvWuowAbort s]
          \/ trace w' = trace w ++ [EvWuowBegin s; EvAcquireLocks s;
                                    EvWuowAbort s]))).

Lemma insertBatchAndHandleRetry_attempts fuel docs w :
  exists t,
    trace (world_of (insertBatchAndHandleRetry fuel docs insertFn w))
    = trace w ++ t
    /\ WriteAttempts s docs
         (match insertBatchAndHandleRetry fuel docs insertFn w with
          | Done st _ => isOK st
          | _ => false
          end) t.
Proof.
  revert w. induction fuel as [|fuel IH]; intro w.
  - exists []. simpl. rewrite app_nil_r. split; [reflexivity | apply WA_stop].
  - destruct (attempt docs w) as [st [w' [E Hcase]]].
    assert (Hstep : insertBatchAndHandleRetry (S fuel) docs insertFn w
                    = if isRetryable st
                      then insertBatchAndHandleRetry fuel docs insertFn w'
                      else Done st w').
    { simpl. unfold bind. rewrite E. destruct (isRetryable st); reflexivity. }
    rewrite Hstep. clear Hstep.
    destruct (isRetryable st) eqn:Hretry.
    + pose proof (isRetryable_not_OK st Hretry) as Hnot.
      destruct (IH w') as [t [Et Ht]].
      destruct Hcase as [[Hok _]|[_ [Etr|Etr]]]; [congruence| |].
      * eexists. split; [rewrite Et, Etr, <- app_assoc; reflexivity|].
        simpl. apply WA_abort; assumption.
      * eexists. split; [rewrite Et, Etr, <- app_assoc; reflexivity|].
        simpl. apply WA_missing; assumption.
    + simpl. destruct Hcase as [[Hok [st0 [Hok0 Etr]]]|[Hnot [Etr|Etr]]].
      * eexists. split; [exact Etr|]. rewrite Hok. apply WA_commit. exact Hok0.
      * eexists. split; [exact Etr|]. rewrite Hnot.
        apply WA_abort; [exact Hnot | apply WA_stop].
      * eexists. split; [exact Etr|]. rewrite Hnot.
        apply WA_missing, WA_stop.
Qed.

Lemma _writeOplogBatchImpl_attempts fuel docs w :
  exists t,
    trace (world_of (_writeOplogBatchImpl fuel docs insertFn w)) = trace w ++ t
    /\ WriteAttempts s docs (isDone (_writeOplogBatchImpl fuel docs insertFn w)) t.
Proof.
  destruct (insertBatchAndHandleRetry_attempts fuel docs w) as [t [Et Ht]].
  exists t. unfold _writeOplogBatchImpl, bind, fassert.
  destruct (insertBatchAndHandleRetry fuel docs insertFn w) as [st w'|f w'|w'];
    simpl in *; try (split; assumption).
  destruct (isOK st); simpl; split; assumption.
Qed.

End Attempts.

Lemma insertDocsToOplogCollection_attempt env docs w :
  exists st w', insertDocsToOplogCollection env docs w = Done st w' /\
    ((isOK st = true /\ exists st0, isOK st0 = true /\
        trace w' = trace w ++ [EvWuowBegin OplogColl; EvAcquireLocks OplogColl;
                               EvInsert OplogColl docs st0; EvWuowCommit OplogColl])
     \/ (isOK st = false /\
         (trace w' = trace w ++ [EvWuowBegin OplogColl; EvAcquireLocks OplogColl;
                                 EvInsert OplogColl docs st; EvWuowAbort OplogColl]
          \/ trace w' = trace w ++ [EvWuowBegin OplogColl; EvAcquireLocks OplogColl;
                                    EvWuowAbort OplogColl]))).
Proof.
  destruct (oplogColl w) as [coll|] eqn:E.
  - rewrite (insertDocsToOplogCollection_present env docs w coll E).
    eexists. eexists. split; [reflexivity|]. unfold afterInsert. simpl.
    destruct (isOK (hd Status_OK (insertScript w))) eqn:Hok.
    + left. split; [reflexivity|]. eexists. split; [exact Hok | reflexivity].
    + right. split; [exact Hok|]. left. reflexivity.
  - rewrite (insertDocsToOplogCollection_missing env docs w E).
    eexists. eexists. split; [reflexivity|].
    right. split; [reflexivity|]. right. reflexivity.
Qed.

Lemma insertDocsToChangeCollection_attempt env docs w :
  exists st w', insertDocsToChangeCollection env docs w = Done st w' /\
    ((isOK st = true /\ exists st0, isOK st0 = true /\
        trace w' = trace w ++ [EvWuowBegin ChangeColl; EvAcquireLocks ChangeColl;
                               EvInsert ChangeColl docs st0; EvWuowCommit ChangeColl])
     \/ (isOK st = false /\
         (trace w' = trace w ++ [EvWuowBegin ChangeColl; EvAcquireLocks ChangeColl;
                                 EvInsert ChangeColl docs st; EvWuowAbort ChangeColl]
          \/ trace w' = trace w ++ [EvWuowBegin ChangeColl; EvAcquireLocks ChangeColl;
                                    EvWuowAbort ChangeColl]))).
Proof.
  rewrite (insertDocsToChangeCollection_run env docs w).
  eexists. eexists. split; [reflexivity|]. unfold afterInsert. simpl.
  destruct (isOK (hd Status_OK (insertScript w))) eqn:Hok.
  - left. split; [reflexivity|]. eexists. split; [exact Hok | reflexivity].
  - right. split; [exact Hok|]. left. reflexivity.
Qed.

Lemma WriteAttempts_nil s docs b : WriteAttempts s docs b [] -> b = false.
Proof. intro H. inversion H. reflexivity. Qed.

Lemma WriteAttempts_sink s docs b t :
  WriteAttempts s docs b t -> Forall (fun e => sinkOf e = Some s) t.
Proof. induction 1; repeat constructor; assumption. Qed.

Lemma WriteAttempts_committed s docs t :
  WriteAttempts s docs true t ->
  exists t0 st, isOK st = true /\
    t = t0 ++ [EvInsert s docs st; EvWuowCommit s] /\
    Forall (fun e => e <> EvWuowCommit s) t0.
Proof.
  intro H. remember true as b eqn:Eb. induction H; try discriminate.
  - exists [EvWuowBegin s; EvAcquireLocks s], st.
    split; [assumption|]. split; [reflexivity|].
    repeat constructor; discriminate.
  - destruct (IHWriteAttempts Eb) as [t0 [st' [Hok [Et HF]]]].
    exists (EvWuowBegin s :: EvAcquireLocks s :: EvInsert s docs st
            :: EvWuowAbort s :: t0), st'.
    split; [assumption|]. split; [rewrite Et; reflexivity|].
    repeat (constructor; [discriminate|]). exact HF.
  - destruct (IHWriteAttempts Eb) as [t0 [st' [Hok [Et HF]]]].
    exists (EvWuowBegin s :: EvAcquireLocks s :: EvWuowAbort s :: t0), st'.
    split; [assumption|]. split; [rewrite Et; reflexivity|].
    repeat (constructor; [discriminate|]). exact HF.
Qed.

Lemma WriteAttempts_uncommitted s docs t :
  WriteAttempts s docs false t -> Forall (fun e => e <> EvWuowCommit s) t.
Proof.
  intro H. remember false as b eqn:Eb. induction H; try discriminate.
  - constructor.
  - repeat (constructor; [discriminate|]). auto.
  - repeat (constructor; [discriminate|]). auto.
Qed.

(** ** [writeOplogBatch], step by step *)

Lemma writeOplogBatch_start {A} n (k : Z -> M A) w :
  (OplogWriterStats_incrementBatchSize n ;;;
   timer <- TimerHolder_start ;; k timer) w
  = k (clock w)
      (set_trace (trace w ++ [EvIncrementBatchSize n; EvTimerStart])
         (set_oplogWriterMetric (incrementBatchSize n (oplogWriterMetric w)) w)).
Proof.
  destruct w as [flag i met clk ab abd lw oc cc scr vis jf act tr].
  unfold OplogWriterStats_incrementBatchSize, TimerHolder_start, emit, modify,
    get, ret, bind. simpl. rewrite <- app_assoc. reflexivity.
Qed.

Lemma writeOplogBatch_unfold env fuel ops w :
  writeOplogBatch env fuel ops w =
  if vector_empty ops then Halt (Invariant "!ops.empty()") w
  else if forallb parses ops
  then (writeBothSinks env fuel (changeCollectionsModeActive w) (map insertOf ops) ;;;
        TimerHolder_stop (clock w) ;;;
        ret (SW_Value (oplogSlot (back (map insertOf ops) noDoc))))
         (afterStart ops w)
  else Halt (InvariantStatusOK (mkStatus NoSuchKey "missing position"))
         (afterStart ops w).
Proof.
  unfold writeOplogBatch. destruct (vector_empty ops) eqn:Hempty.
  - reflexivity.
  - unfold invariant. cbn [negb]. unfold bind at 1. unfold ret at 1.
    rewrite writeOplogBatch_start. fold (afterStart ops w).
    unfold isChangeCollectionsModeActive.
    unfold bind at 1 2. unfold get at 1. unfold ret at 1.
    unfold bind at 1.
    destruct (forallb parses ops) eqn:Hparse.
    + rewrite (createInsertStatements_ok ops [] _ Hparse). cbn [app].
      unfold writeBothSinks. rewrite bind_assoc. reflexivity.
    + rewrite (createInsertStatements_malformed ops [] _ Hparse). reflexivity.
Qed.

(** ** Enough fuel: a write that meets only transient conflicts commits *)

Lemma retry_oplog_success env docs fuel : forall w coll,
  oplogColl w = Some coll ->
  forallb isRetryable (insertScript w) = true ->
  (List.length (insertScript w) < fuel)%nat ->
  exists w',
    insertBatchAndHandleRetry fuel docs (insertDocsToOplogCollection env) w
    = Done Status_OK w'
    /\ insertScript w' = []
    /\ oplogColl w' = Some (coll ++ docs).
Proof.
  induction fuel as [|fuel IH]; intros w coll Hcoll Hscript Hfuel; [lia|].
  simpl. unfold bind.
  rewrite (insertDocsToOplogCollection_present env docs w coll Hcoll).
  destruct (insertScript w) as [|s0 rest] eqn:Escr.
  - simpl. eexists. split; [reflexivity|].
    unfold afterInsert. rewrite Escr, Hcoll. simpl. split; reflexivity.
  - simpl in Hscript. apply andb_true_iff in Hscript.
    destruct Hscript as [Hs0 Hrest].
    cbn [hd]. rewrite (isRetryable_not_OK s0 Hs0), Hs0.
    apply IH.
    + unfold afterInsert. rewrite Escr. cbn [hd].
      rewrite (isRetryable_not_OK s0 Hs0). exact Hcoll.
    + unfold afterInsert. rewrite Escr. exact Hrest.
    + unfold afterInsert. rewrite Escr. simpl in *. lia.
Qed.

Lemma retry_change_success env docs fuel : forall w,
  forallb isRetryable (insertScript w) = true ->
  (List.length (insertScript w) < fuel)%nat ->
  exists w',
    insertBatchAndHandleRetry fuel docs (insertDocsToChangeCollection env) w
    = Done Status_OK w'
    /\ insertScript w' = [].
Proof.
  induction fuel as [|fuel IH]; intros w Hscript Hfuel; [lia|].
  simpl. unfold bind.
  rewrite (insertDocsToChangeCollection_run env docs w).
  destruct (insertScript w) as [|s0 rest] eqn:Escr.
  - simpl. eexists. split; [reflexivity|].
    unfold afterInsert. rewrite Escr. reflexivity.
  - simpl in Hscript. apply andb_true_iff in Hscript.
    destruct Hscript as [Hs0 Hrest].
    cbn [hd]. rewrite (isRetryable_not_OK s0 Hs0), Hs0.
    apply IH.
    + unfold afterInsert. rewrite Escr. exact Hrest.
    + unfold afterInsert. rewrite Escr. simpl in *. lia.
Qed.

Lemma writeBothSinks_success env fuel active docs w :
  (skipWritesToOplogColl env = false -> oplogColl w <> None) ->
  forallb isRetryable (insertScript w) = true ->
  (List.length (insertScript w) < fuel)%nat ->
  exists w', writeBothSinks env fuel active docs w = Done tt w'.
Proof.
  intros Hcoll Hscript Hfuel. unfold writeBothSinks.
  assert (Hfirst : exists w1,
    (if negb (skipWritesToOplogColl env)
     then _writeOplogBatchImpl fuel docs (insertDocsToOplogCollection env) ;;;
          onWriteOplogCollection docs
     else ret tt) w = Done tt w1
    /\ forallb isRetryable (insertScript w1) = true
    /\ (List.length (insertScript w1) < fuel)%nat).
  { destruct (skipWritesToOplogColl env) eqn:Hskip; simpl.
    - exists w. repeat split; assumption.
    - destruct (oplogColl w) as [coll|] eqn:Ec;
        [|exfalso; apply Hcoll; reflexivity].
      destruct (retry_oplog_success env docs fuel w coll Ec Hscript Hfuel)
        as [w1 [E1 [Es1 _]]].
      eexists. unfold _writeOplogBatchImpl, bind. rewrite E1.
      split; [reflexivity|]. simpl. rewrite Es1. simpl. split; [reflexivity|lia]. }
  destruct Hfirst as [w1 [E1 [Hs1 Hf1]]].
  unfold bind at 1. rewrite E1.
  destruct active.
  - destruct (retry_change_success env docs fuel w1 Hs1 Hf1) as [w2 [E2 _]].
    eexists. unfold _writeOplogBatchImpl, bind. rewrite E2. reflexivity.
  - eexists. reflexivity.
Qed.

Lemma writeOplogBatch_Done env fuel ops w sw w' :
  writeOplogBatch env fuel ops w = Done sw w' ->
  ops <> [] /\ forallb parses ops = true /\
  sw = SW_Value (oplogSlot (back (map insertOf ops) noDoc)).
Proof.
  rewrite writeOplogBatch_unfold.
  destruct (vector_empty ops) eqn:He; [discriminate|].
  destruct (forallb parses ops) eqn:Hp; [|discriminate].
  intro H. split; [apply vector_empty_false; exact He|].
  split; [reflexivity|].
  apply bind_Done_inv in H. destruct H as [u [w1 [_ H]]].
  apply bind_Done_inv in H. destruct H as [u' [w2 [_ H]]].
  unfold ret in H. congruence.
Qed.

Lemma parses_position op :
  parses op = true -> exists t, position op = Some t.
Proof.
  unfold parses. destruct (position op) as [t|]; [|discriminate].
  intros _. exists t. reflexivity.
Qed.

Lemma parseOpTimeAndWallTime_position op lt :
  parseOpTimeAndWallTimeFromOplogEntry op = SW_Value lt ->
  position op = Some (opTime lt).
Proof.
  unfold parseOpTimeAndWallTimeFromOplogEntry.
  destruct (position op) as [t|]; [|discriminate].
  destruct (wallClockTime op) as [wt|]; [|discriminate].
  intro H. inversion H. reflexivity.
Qed.

Lemma oplogSlot_back_insertOf ops t :
  ops <> [] -> position (back ops noOp) = Some t ->
  oplogSlot (back (map insertOf ops) noDoc) = t.
Proof.
  intros Hne Hpos. rewrite (back_map insertOf ops noOp noDoc Hne).
  unfold insertOf. rewrite Hpos. reflexivity.
Qed.

(** ** The second half of the loop body, in terms of the batch write *)

Lemma _run_batch_unfold env flushJournal fuel ops w :
  _run_batch env flushJournal fuel ops w =
  match parseOpTimeAndWallTimeFromOplogEntry (back ops noOp) with
  | SW_Error s => Halt (InvariantStatusOK s) w
  | SW_Value lt =>
    match writeOplogBatch env fuel ops w with
    | Done _ w1 => Done LoopContinue (afterPush ops (afterFinalize lt flushJournal w1))
    | Halt f w1 => Halt f w1
    | OutOfFuel w1 => OutOfFuel w1
    end
  end.
Proof.
  unfold _run_batch.
  destruct (parseOpTimeAndWallTimeFromOplogEntry (back ops noOp)) as [lt|s] eqn:Hlt;
    [|reflexivity].
  unfold invariantStatusOK. unfold bind at 1. unfold ret at 1.
  unfold bind at 1.
  destruct (writeOplogBatch env fuel ops w) as [sw w1|f w1|w1] eqn:Hw;
    try reflexivity.
  apply writeOplogBatch_Done in Hw. destruct Hw as [Hne [Hp Hsw]].
  rewrite (oplogSlot_back_insertOf ops (opTime lt) Hne
             (parseOpTimeAndWallTime_position _ _ Hlt)) in Hsw.
  subst sw. cbn [getStatus code Status_OK ErrorCodes_eqb fassertNoTrace].
  unfold bind at 1. unfold ret at 1.
  rewrite OpTime_eqb_refl. unfold invariant.
  unfold bind at 1. unfold ret at 1.
  unfold bind at 1. rewrite finalizeOplogBatch_run.
  unfold bind. rewrite push_run. reflexivity.
Qed.

(** * The claims *)

(** C1. For every non-empty batch, [writeOplogBatch] on success returns
    exactly the position parsed from the last record of the batch (first
    part); success does happen, for a batch of well-formed records, once
    the fuel covers the transient conflicts of the storage engine (second
    part); and so the caller's equality check between the returned
    position and the last record's parsed position passes: after a
    successful write the loop body goes on to finalization and push
    (third part). *)
Theorem writeOplogBatch_returns_last_optime env fuel ops w :
  (forall sw w',
     writeOplogBatch env fuel ops w = Done sw w' ->
     ops <> [] /\
     exists t, parseFromOplogEntry (back ops noOp) = SW_Value t /\ sw = SW_Value t)
  /\ (ops <> [] ->
      forallb parses ops = true ->
      (skipWritesToOplogColl env = false -> oplogColl w <> None) ->
      forallb isRetryable (insertScript w) = true ->
      (List.length (insertScript w) < fuel)%nat ->
      exists t w',
        position (back ops noOp) = Some t /\
        writeOplogBatch env fuel ops w = Done (SW_Value t) w')
  /\ (forall flushJournal sw w' lt,
        writeOplogBatch env fuel ops w = Done sw w' ->
        parseOpTimeAndWallTimeFromOplogEntry (back ops noOp) = SW_Value lt ->
        sw = SW_Value (opTime lt) /\
        _run_batch env flushJournal fuel ops w
        = Done LoopContinue (afterPush ops (afterFinalize lt flushJournal w'))).
Proof.
  split; [|split].
  - intros sw w' H. apply writeOplogBatch_Done in H.
    destruct H as [Hne [Hp Hsw]]. split; [exact Hne|].
    destruct (parses_position _ (forallb_back parses ops noOp Hne Hp)) as [t Ht].
    exists t. unfold parseFromOplogEntry. rewrite Ht. split; [reflexivity|].
    rewrite Hsw, (oplogSlot_back_insertOf ops t Hne Ht). reflexivity.
  - intros Hne Hp Hcoll Hscript Hfuel.
    destruct (parses_position _ (forallb_back parses ops noOp Hne Hp)) as [t Ht].
    rewrite writeOplogBatch_unfold.
    apply vector_empty_false in Hne. rewrite Hne, Hp.
    apply vector_empty_false in Hne.
    destruct (writeBothSinks_success env fuel (changeCollectionsModeActive w)
                (map insertOf ops) (afterStart ops w) Hcoll Hscript Hfuel)
      as [w1 E1].
    exists t. eexists. split; [exact Ht|].
    unfold bind at 1. rewrite E1.
    rewrite (oplogSlot_back_insertOf ops t Hne Ht). reflexivity.
  - intros flushJournal sw w' lt Hw Hlt.
    pose proof (writeOplogBatch_Done _ _ _ _ _ _ Hw) as [Hne [Hp Hsw]].
    rewrite (oplogSlot_back_insertOf ops (opTime lt) Hne
               (parseOpTimeAndWallTime_position _ _ Hlt)) in Hsw.
    split; [exact Hsw|].
    rewrite _run_batch_unfold, Hlt, Hw. reflexivity.
Qed.

Lemma writeOplogBatch_returns_last_optime_witness :
  exists t w',
    position (back twoRecords noOp) = Some t /\
    writeOplogBatch (exampleEnv (mkBatch twoRecords false)) 1 twoRecords
      exampleWorld = Done (SW_Value t) w'.
Proof.
  apply (proj1 (proj2 (writeOplogBatch_returns_last_optime
                         (exampleEnv (mkBatch twoRecords false)) 1 twoRecords
                         exampleWorld))).
  - discriminate.
  - reflexivity.
  - discriminate.
  - reflexivity.
  - simpl. lia.
Defined.

(** ** Drain mode *)

Lemma keepsDrainMode_refl w : keepsDrainMode w w.
Proof.
  repeat (split; [reflexivity|]). apply ext_refl. constructor.
Qed.

Lemma keepsDrainMode_trans w1 w2 w3 :
  keepsDrainMode w1 w2 -> keepsDrainMode w2 w3 -> keepsDrainMode w1 w3.
Proof.
  intros [F1 [D1 [N1 E1]]] [F2 [D2 [N2 E2]]].
  repeat (split; [congruence|]).
  eapply ext_trans; [|exact E1|exact E2].
  intros a b Ha Hb. apply Forall_app. split; assumption.
Qed.

Lemma keepsDrainMode_same w w' :
  _applyBufferInDrainMode w' = _applyBufferInDrainMode w ->
  applyBufferDrainMode w' = applyBufferDrainMode w ->
  fetches w' = fetches w ->
  trace w' = trace w ->
  keepsDrainMode w w'.
Proof.
  intros F D N T. repeat (split; [assumption|]).
  apply ext_same_trace; [constructor | exact T].
Qed.

Lemma keepsDrainMode_events w w' t :
  _applyBufferInDrainMode w' = _applyBufferInDrainMode w ->
  applyBufferDrainMode w' = applyBufferDrainMode w ->
  fetches w' = fetches w ->
  trace w' = trace w ++ t ->
  Forall (fun e => isDrainEvent e = false) t ->
  keepsDrainMode w w'.
Proof.
  intros F D N T H. repeat (split; [assumption|]). exists t. split; assumption.
Qed.

Lemma keepsDrainMode__run_batch env flushJournal fuel ops :
  steps keepsDrainMode (_run_batch env flushJournal fuel ops).
Proof.
  apply (run_steps__run_batch env keepsDrainMode flushJournal
           keepsDrainMode_refl keepsDrainMode_trans);
    try (intros; apply keepsDrainMode_same; reflexivity).
  - intros e w He.
    apply (keepsDrainMode_events _ _ [e]); try reflexivity.
    constructor; [|constructor].
    destruct e; simpl in *; try reflexivity; discriminate.
  - intros o w. rewrite push_run.
    apply (keepsDrainMode_events _ _ [EvPush o]); try reflexivity.
    repeat constructor.
  - intros t w. rewrite finalizeOplogBatch_run.
    apply (keepsDrainMode_events _ _ (finalizeTrace t flushJournal));
      try reflexivity.
    unfold finalizeTrace. destruct flushJournal; repeat constructor.
Qed.

Lemma filter_none {A} (p : A -> bool) l :
  Forall (fun x => p x = false) l -> filter p l = [].
Proof.
  induction 1 as [|x l Hx _ IH]; simpl; [reflexivity|]. rewrite Hx. exact IH.
Qed.

Lemma filter_isDrainEvent_fetchTrace env w :
  filter isDrainEvent (fetchTrace env w)
  = drainSignal (_applyBufferInDrainMode w)
      (exhausted (getNextBatch env (fetches w))).
Proof.
  unfold fetchTrace, drainSignal.
  destruct (rsSyncApplyStop env (fetches w)),
    (_applyBufferInDrainMode w), (exhausted (getNextBatch env (fetches w)));
    reflexivity.
Qed.

Lemma _run_body_keeps_after_fetch env flushJournal fuel w :
  keepsDrainMode (afterFetch env w) (world_of (_run_body env flushJournal fuel w)).
Proof.
  rewrite _run_body_unfold. cbv zeta.
  destruct (empty (getNextBatch env (fetches w))).
  - apply keepsDrainMode_refl.
  - apply keepsDrainMode__run_batch.
Qed.

Lemma _run_loop_flag env flushJournal fuel iters : forall w,
  let w' := world_of (_run_loop env flushJournal fuel (S iters) w) in
  (fetches w < fetches w')%nat
  /\ _applyBufferInDrainMode w'
     = exhausted (getNextBatch env (pred (fetches w'))).
Proof.
  induction iters as [|iters IH]; intro w; cbv zeta.
  - destruct (_run_body_keeps_after_fetch env flushJournal fuel w)
      as [F [_ [N _]]].
    simpl in F, N.
    assert (E : world_of (_run_loop env flushJournal fuel 1 w)
                = world_of (_run_body env flushJournal fuel w)).
    { simpl. unfold bind.
      destruct (_run_body env flushJournal fuel w) as [[|] w1|f w1|w1];
        reflexivity. }
    rewrite E, N, F. simpl. split; [lia | reflexivity].
  - destruct (_run_body_keeps_after_fetch env flushJournal fuel w)
      as [F [_ [N _]]].
    simpl in F, N.
    change (_run_loop env flushJournal fuel (S (S iters)) w)
      with (bind (_run_body env flushJournal fuel)
              (fun ctl => match ctl with
                          | LoopReturn => ret tt
                          | LoopContinue =>
                            _run_loop env flushJournal fuel (S iters)
                          end) w).
    unfold bind.
    destruct (_run_body env flushJournal fuel w) as [[|] w1|f w1|w1];
      simpl in F, N.
    + destruct (IH w1) as [Hlt Hflag]. split; [lia | exact Hflag].
    + simpl. rewrite N, F. simpl. split; [lia | reflexivity].
    + simpl. rewrite N, F. simpl. split; [lia | reflexivity].
    + simpl. rewrite N, F. simpl. split; [lia | reflexivity].
Qed.

(** C2, as the code has it.  After every pass through the loop body,
    however the pass ends, the writer's drain-mode flag equals the
    exhausted flag of the batch fetched in that pass (not its negation),
    and so does the apply buffer's drain mode once it has been signalled;
    the apply buffer is told to enter or exit drain mode exactly when the
    flag changes: the drain-mode calls of the pass are none if the flag
    already equals the exhausted flag, one [exitDrainMode] if the flag
    was set, one [enterDrainMode] if it was not (first three parts).  So
    after any number of iterations of the main loop, from the first on,
    the flag equals the exhausted flag of the most recent fetch (fourth
    part). *)
Theorem drain_mode_flag_tracks_exhausted env flushJournal fuel w :
  let batch := getNextBatch env (fetches w) in
  let w' := world_of (_run_body env flushJournal fuel w) in
  _applyBufferInDrainMode w' = exhausted batch
  /\ applyBufferDrainMode w'
     = (if Bool.eqb (_applyBufferInDrainMode w) (exhausted batch)
        then applyBufferDrainMode w else exhausted batch)
  /\ (exists t,
        trace w' = trace w ++ t
        /\ filter isDrainEvent t
           = (if Bool.eqb (_applyBufferInDrainMode w) (exhausted batch) then []
              else if _applyBufferInDrainMode w then [EvExitDrainMode]
                   else [EvEnterDrainMode]))
  /\ (forall iters,
        let wn := world_of (_run_loop env flushJournal fuel (S iters) w) in
        (fetches w < fetches wn)%nat
        /\ _applyBufferInDrainMode wn
           = exhausted (getNextBatch env (pred (fetches wn)))).
Proof.
  cbv zeta.
  destruct (_run_body_keeps_after_fetch env flushJournal fuel w)
    as [F [D [_ [t [Et Ht]]]]].
  split; [rewrite F; reflexivity|]. split; [rewrite D; reflexivity|].
  split.
  - exists (fetchTrace env w ++ t). split.
    + rewrite Et. simpl. rewrite app_assoc. reflexivity.
    + rewrite filter_app, (filter_none _ _ Ht), app_nil_r.
      apply filter_isDrainEvent_fetchTrace.
  - intro iters. apply _run_loop_flag.
Qed.

(** C2, as stated, fails: when the first fetch reports an exhausted
    write buffer, the flag after the first pass is set, which is the
    exhausted flag and not its negation. *)
Lemma drain_mode_flag_is_not_negation :
  _applyBufferInDrainMode
    (world_of (_run_body caughtUpEnv true 1 exampleWorld))
  <> negb (exhausted (getNextBatch caughtUpEnv (fetches exampleWorld))).
Proof. vm_compute. discriminate. Qed.

(** C3. Finalization performs its three effects in strict order: the
    visibility registration (with ordered commit), then the advance of
    LastWrittenPosition to the batch's last position, then the
    journal-flush trigger, which occurs only when it is asked for (first
    part).  [_run] asks for it exactly when the storage medium is not
    ephemeral, and in every run of [_run], however it ends, finalization
    events occur only in such ordered blocks (second part).  Every batch
    that was written is finalized with its last record's position and
    then pushed (third part). *)
Theorem finalizeOplogBatch_strict_order env :
  (forall t flushJournal w,
     finalizeOplogBatch t flushJournal w = Done tt (afterFinalize t flushJournal w)
     /\ trace (afterFinalize t flushJournal w)
        = trace w
          ++ [EvOplogDiskLocRegister (getTimestamp (opTime t)) true;
              EvSetMyLastWrittenForward t]
          ++ (if flushJournal then [EvTriggerJournalFlush] else [])
     /\ myLastWritten (afterFinalize t flushJournal w)
        = advanceForward t (myLastWritten w))
  /\ (forall fuel iters w,
        exists t,
          trace (world_of (_run env fuel iters w)) = trace w ++ t
          /\ FinalizeOrdered (isEphemeral env) t)
  /\ (forall flushJournal fuel ops w sw w1 lt,
        writeOplogBatch env fuel ops w = Done sw w1 ->
        parseOpTimeAndWallTimeFromOplogEntry (back ops noOp) = SW_Value lt ->
        exists w2,
          _run_batch env flushJournal fuel ops w = Done LoopContinue w2
          /\ trace w2
             = trace w1 ++ finalizeTrace lt flushJournal ++ [EvPush ops]).
Proof.
  split; [|split].
  - intros t flushJournal w. split; [apply finalizeOplogBatch_run|].
    split; reflexivity.
  - intros fuel iters w. apply FinalizeOrdered__run.
  - intros flushJournal fuel ops w sw w1 lt Hw Hlt.
    rewrite _run_batch_unfold, Hlt, Hw. eexists. split; [reflexivity|].
    simpl. rewrite <- app_assoc. reflexivity.
Qed.

Lemma finalizeOplogBatch_strict_order_witness :
  exists w2,
    _run_batch (exampleEnv (mkBatch twoRecords false)) true 1 twoRecords
      exampleWorld = Done LoopContinue w2
    /\ trace w2
       = trace (world_of (writeOplogBatch (exampleEnv (mkBatch twoRecords false))
                            1 twoRecords exampleWorld))
         ++ finalizeTrace (mkOpTimeAndWallTime (mkOpTime 11 1) 11000) true
         ++ [EvPush twoRecords].
Proof.
  eapply (proj2 (proj2 (finalizeOplogBatch_strict_order
                          (exampleEnv (mkBatch twoRecords false))))).
  - vm_compute. reflexivity.
  - reflexivity.
Defined.

(** C6. Advancing LastWrittenPosition is monotonic and idempotent:
    advancing with a value that is not strictly greater than the current
    one is a no-op; the position after an advance is never below the
    position before; advancing twice with the same value changes the
    state only the first time; and across any run of the writer, whatever
    the batches and however the run ends, LastWrittenPosition never
    decreases. *)
Theorem lastWritten_forward_monotonic_idempotent env t w :
  (OpTime_ltb (opTime (myLastWritten w)) (opTime t) = false ->
   myLastWritten (world_of (setMyLastWrittenOpTimeAndWallTimeForward t w))
   = myLastWritten w)
  /\ OpTime_leb (opTime (myLastWritten w))
       (opTime (myLastWritten
                  (world_of (setMyLastWrittenOpTimeAndWallTimeForward t w))))
     = true
  /\ myLastWritten
       (world_of (setMyLastWrittenOpTimeAndWallTimeForward t
          (world_of (setMyLastWrittenOpTimeAndWallTimeForward t w))))
     = myLastWritten (world_of (setMyLastWrittenOpTimeAndWallTimeForward t w))
  /\ (forall fuel iters,
        OpTime_leb (opTime (myLastWritten w))
          (opTime (myLastWritten (world_of (_run env fuel iters w)))) = true).
Proof.
  split; [|split; [|split]].
  - intro H. simpl. apply advanceForward_noop. exact H.
  - simpl. apply advanceForward_mono.
  - simpl. apply advanceForward_idem.
  - intros fuel iters. apply lastWritten_le__run.
Qed.

Lemma lastWritten_forward_monotonic_idempotent_witness :
  myLastWritten
    (world_of (setMyLastWrittenOpTimeAndWallTimeForward
                 (mkOpTimeAndWallTime (mkOpTime 0 0) 5) exampleWorld))
  = myLastWritten exampleWorld.
Proof.
  apply (proj1 (lastWritten_forward_monotonic_idempotent
                  (exampleEnv (mkBatch twoRecords false))
                  (mkOpTimeAndWallTime (mkOpTime 0 0) 5) exampleWorld)).
  reflexivity.
Defined.

(** C7. When the fetched batch is empty, the pass through the loop body
    ends right after the drain-mode signal: it writes nothing, finalizes
    nothing and forwards nothing (the stores, LastWrittenPosition, the
    visibility point, the journal-flush count, the apply buffer's contents
    and the stats are untouched, and the only calls made are those of the
    fetch).  The loop then returns if the system is shutting down, and
    otherwise goes straight to the next iteration. *)
Theorem _run_empty_batch env flushJournal fuel w :
  empty (getNextBatch env (fetches w)) = true ->
  _run_body env flushJournal fuel w
  = Done (if inShutdown env (fetches w) then LoopReturn else LoopContinue)
      (afterFetch env w)
  /\ (oplogColl (afterFetch env w) = oplogColl w
      /\ changeColl (afterFetch env w) = changeColl w
      /\ oplogWriterMetric (afterFetch env w) = oplogWriterMetric w
      /\ myLastWritten (afterFetch env w) = myLastWritten w
      /\ oplogVisibility (afterFetch env w) = oplogVisibility w
      /\ journalFlushes (afterFetch env w) = journalFlushes w
      /\ applyBuffer (afterFetch env w) = applyBuffer w)
  /\ (trace (afterFetch env w) = trace w ++ fetchTrace env w
      /\ Forall (fun e => isFetchEvent e = true) (fetchTrace env w))
  /\ (forall iters,
        _run_loop env flushJournal fuel (S iters) w
        = if inShutdown env (fetches w)
          then Done tt (afterFetch env w)
          else _run_loop env flushJournal fuel iters (afterFetch env w)).
Proof.
  intro Hempty.
  assert (Hbody : _run_body env flushJournal fuel w
                  = Done (if inShutdown env (fetches w)
                          then LoopReturn else LoopContinue) (afterFetch env w)).
  { rewrite _run_body_unfold. cbv zeta. rewrite Hempty. reflexivity. }
  split; [exact Hbody|].
  split; [repeat split|].
  split; [split; [reflexivity | apply fetchTrace_isFetchEvent]|].
  intro iters. simpl. unfold bind. rewrite Hbody.
  destruct (inShutdown env (fetches w)); reflexivity.
Qed.

Lemma _run_empty_batch_witness :
  _run_loop caughtUpEnv true 1 2 exampleWorld
  = _run_loop caughtUpEnv true 1 1 (afterFetch caughtUpEnv exampleWorld).
Proof.
  apply (proj2 (proj2 (proj2 (_run_empty_batch caughtUpEnv true 1 exampleWorld
                                 eq_refl)))).
Defined.

(** ** The two sink writes, as a trace *)

Lemma writeBothSinks_trace env fuel active docs w :
  exists (tO tC : list Event) (bO bC : bool),
    trace (world_of (writeBothSinks env fuel active docs w))
    = trace w
      ++ tO ++ (if bO then [EvOnWriteOplogCollection docs] else [])
      ++ tC ++ (if bC then [EvOnWriteChangeCollection docs] else [])
    /\ WriteAttempts OplogColl docs bO tO
    /\ WriteAttempts ChangeColl docs bC tC
    /\ (skipWritesToOplogColl env = true -> tO = [] /\ bO = false)
    /\ (active = false -> tC = [] /\ bC = false)
    /\ (tC <> [] -> skipWritesToOplogColl env = false -> bO = true)
    /\ (isDone (writeBothSinks env fuel active docs w) = true ->
        (skipWritesToOplogColl env = false -> bO = true)
        /\ (active = true -> bC = true)).
Proof.
  unfold writeBothSinks.
  set (stageC := if active
                 then _writeOplogBatchImpl fuel docs (insertDocsToChangeCollection env) ;;;
                      onWriteChangeCollection docs
                 else ret tt).
  (* the change-feed stage, from any world *)
  assert (Hchange : forall w1,
    exists (tC : list Event) (bC : bool),
      trace (world_of (stageC w1))
      = trace w1 ++ tC ++ (if bC then [EvOnWriteChangeCollection docs] else [])
      /\ WriteAttempts ChangeColl docs bC tC
      /\ (active = false -> tC = [] /\ bC = false)
      /\ (isDone (stageC w1) = true -> active = true -> bC = true)).
  { intro w1. subst stageC. destruct active.
    - destruct (_writeOplogBatchImpl_attempts ChangeColl
                  (insertDocsToChangeCollection env)
                  (insertDocsToChangeCollection_attempt env) fuel docs w1)
        as [tC [Et Ht]].
      exists tC, (isDone (_writeOplogBatchImpl fuel docs
                            (insertDocsToChangeCollection env) w1)).
      unfold bind.
      destruct (_writeOplogBatchImpl fuel docs (insertDocsToChangeCollection env) w1)
        as [u w2|f w2|w2]; simpl in *.
      + rewrite Et, <- app_assoc.
        split; [reflexivity|]. split; [exact Ht|]. split; [discriminate|].
        reflexivity.
      + rewrite Et, app_nil_r.
        split; [reflexivity|]. split; [exact Ht|]. split; discriminate.
      + rewrite Et, app_nil_r.
        split; [reflexivity|]. split; [exact Ht|]. split; discriminate.
    - exists (@nil Event), false. simpl. rewrite app_nil_r.
      split; [reflexivity|]. split; [apply WA_stop|].
      split; [split; reflexivity | discriminate]. }
  destruct (skipWritesToOplogColl env) eqn:Hskip; cbn [negb].
  - (* the oplog write is skipped *)
    assert (Hr : (ret tt ;;; stageC) w = stageC w) by reflexivity.
    rewrite Hr.
    destruct (Hchange w) as [tC [bC [Et [Ht [Hoff Hdone]]]]].
    exists (@nil Event), tC, false, bC. cbn [app].
    split; [exact Et|]. split; [apply WA_stop|]. split; [exact Ht|].
    split; [split; reflexivity|]. split; [exact Hoff|].
    split; [discriminate|].
    intro Hd. split; [discriminate | apply Hdone; exact Hd].
  - destruct (_writeOplogBatchImpl_attempts OplogColl
                (insertDocsToOplogCollection env)
                (insertDocsToOplogCollection_attempt env) fuel docs w)
      as [tO [EtO HtO]].
    destruct (_writeOplogBatchImpl fuel docs (insertDocsToOplogCollection env) w)
      as [u w1|f w1|w1] eqn:E1; simpl in EtO, HtO.
    + (* committed: the observer is called, then the change-feed stage *)
      assert (Hr : ((_writeOplogBatchImpl fuel docs (insertDocsToOplogCollection env) ;;;
                     onWriteOplogCollection docs) ;;; stageC) w
                   = stageC (set_trace (trace w1 ++ [EvOnWriteOplogCollection docs]) w1)).
      { unfold bind. rewrite E1. reflexivity. }
      rewrite Hr.
      destruct (Hchange (set_trace (trace w1 ++ [EvOnWriteOplogCollection docs]) w1))
        as [tC [bC [Et [Ht [Hoff Hdone]]]]].
      exists tO, tC, true, bC.
      split; [rewrite Et; simpl; rewrite EtO, <- !app_assoc; reflexivity|].
      split; [exact HtO|]. split; [exact Ht|].
      split; [discriminate|]. split; [exact Hoff|].
      split; [reflexivity|].
      intro Hd. split; [reflexivity | apply Hdone; exact Hd].
    + assert (Hr : ((_writeOplogBatchImpl fuel docs (insertDocsToOplogCollection env) ;;;
                     onWriteOplogCollection docs) ;;; stageC) w = Halt f w1).
      { unfold bind. rewrite E1. reflexivity. }
      rewrite Hr.
      exists tO, (@nil Event), false, false. simpl. rewrite EtO, app_nil_r.
      split; [reflexivity|]. split; [exact HtO|]. split; [apply WA_stop|].
      split; [discriminate|]. split; [split; reflexivity|].
      split; [congruence | discriminate].
    + assert (Hr : ((_writeOplogBatchImpl fuel docs (insertDocsToOplogCollection env) ;;;
                     onWriteOplogCollection docs) ;;; stageC) w = OutOfFuel w1).
      { unfold bind. rewrite E1. reflexivity. }
      rewrite Hr.
      exists tO, (@nil Event), false, false. simpl. rewrite EtO, app_nil_r.
      split; [reflexivity|]. split; [exact HtO|]. split; [apply WA_stop|].
      split; [discriminate|]. split; [split; reflexivity|].
      split; [congruence | discriminate].
Qed.

Lemma writeOplogBatch_cases env fuel ops w :
  writeOplogBatch env fuel ops w =
  if vector_empty ops then Halt (Invariant "!ops.empty()") w
  else if forallb parses ops
  then match writeBothSinks env fuel (changeCollectionsModeActive w)
               (map insertOf ops) (afterStart ops w) with
       | Done _ w1 =>
         Done (SW_Value (oplogSlot (back (map insertOf ops) noDoc)))
           (afterStop (clock w) w1)
       | Halt f w1 => Halt f w1
       | OutOfFuel w1 => OutOfFuel w1
       end
  else Halt (InvariantStatusOK (mkStatus NoSuchKey "missing position"))
         (afterStart ops w).
Proof.
  rewrite writeOplogBatch_unfold.
  destruct (vector_empty ops); [reflexivity|].
  destruct (forallb parses ops); [|reflexivity].
  unfold bind at 1.
  destruct (writeBothSinks env fuel (changeCollectionsModeActive w)
              (map insertOf ops) (afterStart ops w)); reflexivity.
Qed.

(** C5, as the code has it.  The events of one call of [writeOplogBatch],
    however it ends, are: the stats calls, then the attempts of the
    oplog-collection write ([tO]), then, if that write committed,
    [onWriteOplogCollection], then the attempts of the change-collection
    write ([tC]), then, if that write committed,
    [onWriteChangeCollection], then the stop of the timer if the call
    returns.  A commit is the last event of its write, so each observer
    call comes right after the commit of its own write.  Unless the writer
    is configured to skip the writes to the oplog collection, the
    change-collection write begins only when the oplog-collection write
    has committed; with that option set there is no oplog-collection
    event at all.  When the change-feed mode is inactive there is no
    change-collection write and no change-collection observer call.  A
    call that returns has committed every write it was to make. *)
Theorem writeOplogBatch_dual_sink_sequencing env fuel ops w :
  exists (tO tC : list Event) (bO bC : bool),
    trace (world_of (writeOplogBatch env fuel ops w))
    = trace w
      ++ (if vector_empty ops then []
          else [EvIncrementBatchSize (Z.of_nat (List.length ops)); EvTimerStart])
      ++ tO
      ++ (if bO then [EvOnWriteOplogCollection (map insertOf ops)] else [])
      ++ tC
      ++ (if bC then [EvOnWriteChangeCollection (map insertOf ops)] else [])
      ++ (if isDone (writeOplogBatch env fuel ops w) then [EvTimerStop] else [])
    /\ WriteAttempts OplogColl (map insertOf ops) bO tO
    /\ WriteAttempts ChangeColl (map insertOf ops) bC tC
    /\ (skipWritesToOplogColl env = true -> tO = [] /\ bO = false)
    /\ (changeCollectionsModeActive w = false -> tC = [] /\ bC = false)
    /\ (tC <> [] -> skipWritesToOplogColl env = false -> bO = true)
    /\ (isDone (writeOplogBatch env fuel ops w) = true ->
        (skipWritesToOplogColl env = false -> bO = true)
        /\ (changeCollectionsModeActive w = true -> bC = true)).
Proof.
  rewrite writeOplogBatch_cases.
  destruct (vector_empty ops) eqn:Hempty;
    [|destruct (forallb parses ops) eqn:Hparse].
  - exists (@nil Event), (@nil Event), false, false. simpl. rewrite app_nil_r.
    split; [reflexivity|]. split; [apply WA_stop|]. split; [apply WA_stop|].
    split; [split; reflexivity|]. split; [split; reflexivity|].
    split; [congruence | discriminate].
  - destruct (writeBothSinks_trace env fuel (changeCollectionsModeActive w)
                (map insertOf ops) (afterStart ops w))
      as [tO [tC [bO [bC [Et [HO [HC [Hskip [Hoff [Hseq Hdone]]]]]]]]]].
    exists tO, tC, bO, bC.
    split; [|split; [exact HO|split; [exact HC|split; [exact Hskip|
             split; [exact Hoff|split; [exact Hseq|]]]]]].
    + destruct (writeBothSinks env fuel (changeCollectionsModeActive w)
                  (map insertOf ops) (afterStart ops w)) as [u w1|f w1|w1];
        simpl in *; rewrite Et, <- ?app_assoc; simpl;
        rewrite ?app_nil_r; reflexivity.
    + destruct (writeBothSinks env fuel (changeCollectionsModeActive w)
                  (map insertOf ops) (afterStart ops w)) as [u w1|f w1|w1];
        simpl in *; try discriminate. intros _. apply Hdone. reflexivity.
  - exists (@nil Event), (@nil Event), false, false. simpl.
    split; [reflexivity|]. split; [apply WA_stop|]. split; [apply WA_stop|].
    split; [split; reflexivity|]. split; [split; reflexivity|].
    split; [congruence | discriminate].
Qed.

(** C5, as stated, fails for a writer configured to skip the writes
    to the oplog collection: with the change-feed mode active the
    change-collection write begins, and commits, although no
    oplog-collection write has committed. *)
Lemma change_feed_write_without_primary_commit :
  let t := trace (world_of (writeOplogBatch skipEnv 1 twoRecords changeFeedWorld)) in
  existsb (isBegin ChangeColl) t = true
  /\ existsb (isCommit ChangeColl) t = true
  /\ existsb (isCommit OplogColl) t = false.
Proof. vm_compute. repeat split. Qed.

Lemma writeOplogBatch_dual_sink_sequencing_witness :
  exists (tO tC : list Event),
    trace (world_of (writeOplogBatch (exampleEnv (mkBatch twoRecords false)) 1
                       twoRecords changeFeedWorld))
    = [EvIncrementBatchSize 2; EvTimerStart]
      ++ tO ++ [EvOnWriteOplogCollection (map insertOf twoRecords)]
      ++ tC ++ [EvOnWriteChangeCollection (map insertOf twoRecords)]
      ++ [EvTimerStop]
    /\ WriteAttempts OplogColl (map insertOf twoRecords) true tO
    /\ WriteAttempts ChangeColl (map insertOf twoRecords) true tC.
Proof.
  destruct (writeOplogBatch_dual_sink_sequencing
              (exampleEnv (mkBatch twoRecords false)) 1 twoRecords changeFeedWorld)
    as [tO [tC [bO [bC [Et [HO [HC [_ [_ [_ Hdone]]]]]]]]]].
  destruct (Hdone eq_refl) as [H1 H2].
  rewrite (H1 eq_refl) in *. rewrite (H2 eq_refl) in *.
  exists tO, tC. split; [exact Et|]. split; assumption.
Defined.

(** ** Stats and the write *)

Lemma keepsMetric_writeBothSinks env fuel active docs :
  steps keepsMetric (writeBothSinks env fuel active docs).
Proof.
  apply (run_steps_writeBothSinks env keepsMetric);
    try (intros; reflexivity).
  intros w1 w2 w3 H1 H2. unfold keepsMetric in *. congruence.
Qed.

Lemma writeBothSinks_ext env fuel active docs w :
  exists t, trace (world_of (writeBothSinks env fuel active docs w)) = trace w ++ t.
Proof.
  destruct (writeBothSinks_trace env fuel active docs w)
    as [tO [tC [bO [bC [Et _]]]]].
  eexists. exact Et.
Qed.

Lemma _writeOplogBatchImpl_missing env fuel docs w :
  oplogColl w = None ->
  _writeOplogBatchImpl (S fuel) docs (insertDocsToOplogCollection env) w
  = Halt (Fassert 8352101
            (mkStatus NamespaceNotFound "Oplog collection does not exist"))
      (set_trace
         (trace w ++ [EvWuowBegin OplogColl; EvAcquireLocks OplogColl;
                      EvWuowAbort OplogColl]) w).
Proof.
  intro H. unfold _writeOplogBatchImpl. simpl. unfold bind.
  rewrite (insertDocsToOplogCollection_missing env docs w H). reflexivity.
Qed.

(** C8. If the oplog collection does not exist at write time, the insert
    unit of work returns NamespaceNotFound and does not commit: the unit
    of work is aborted and the world is otherwise unchanged (first part).
    The error is not retried: the retry helper returns it after that one
    attempt (second part).  The writer treats it as fatal:
    [_writeOplogBatchImpl] halts the process through fassert 8352101
    (third part), and so do [writeOplogBatch] and the loop body for any
    batch of well-formed records, unless the writer is configured to skip
    the oplog collection (fourth part). *)
Theorem missing_oplog_collection_is_fatal env fuel docs w :
  oplogColl w = None ->
  let notFound := mkStatus NamespaceNotFound "Oplog collection does not exist" in
  let aborted :=
    set_trace
      (trace w ++ [EvWuowBegin OplogColl; EvAcquireLocks OplogColl;
                   EvWuowAbort OplogColl]) w in
  insertDocsToOplogCollection env docs w = Done notFound aborted
  /\ insertBatchAndHandleRetry (S fuel) docs (insertDocsToOplogCollection env) w
     = Done notFound aborted
  /\ _writeOplogBatchImpl (S fuel) docs (insertDocsToOplogCollection env) w
     = Halt (Fassert 8352101 notFound) aborted
  /\ (forall ops flushJournal lt,
        forallb parses ops = true ->
        parseOpTimeAndWallTimeFromOplogEntry (back ops noOp) = SW_Value lt ->
        skipWritesToOplogColl env = false ->
        exists w',
          writeOplogBatch env (S fuel) ops w = Halt (Fassert 8352101 notFound) w'
          /\ _run_batch env flushJournal (S fuel) ops w
             = Halt (Fassert 8352101 notFound) w'
          /\ oplogColl w' = None
          /\ trace w'
             = trace w
               ++ [EvIncrementBatchSize (Z.of_nat (List.length ops)); EvTimerStart;
                   EvWuowBegin OplogColl; EvAcquireLocks OplogColl;
                   EvWuowAbort OplogColl]).
Proof.
  intro H. cbv zeta.
  split; [apply insertDocsToOplogCollection_missing; exact H|].
  split.
  { simpl. unfold bind.
    rewrite (insertDocsToOplogCollection_missing env docs w H). reflexivity. }
  split; [apply _writeOplogBatchImpl_missing; exact H|].
  intros ops flushJournal lt Hp Hlt Hskip.
  assert (Hne : vector_empty ops = false).
  { destruct ops; [|reflexivity]. simpl in Hlt. discriminate. }
  assert (Hw : writeOplogBatch env (S fuel) ops w
               = Halt (Fassert 8352101
                         (mkStatus NamespaceNotFound "Oplog collection does not exist"))
                   (set_trace
                      (trace (afterStart ops w)
                       ++ [EvWuowBegin OplogColl; EvAcquireLocks OplogColl;
                           EvWuowAbort OplogColl]) (afterStart ops w))).
  { rewrite writeOplogBatch_cases, Hne, Hp.
    unfold writeBothSinks. rewrite Hskip. cbn [negb].
    unfold bind at 1. unfold bind at 1.
    rewrite (_writeOplogBatchImpl_missing env fuel (map insertOf ops)
               (afterStart ops w) H).
    reflexivity. }
  eexists. split; [exact Hw|].
  split; [rewrite _run_batch_unfold, Hlt, Hw; reflexivity|].
  split; [exact H|].
  simpl. rewrite <- app_assoc. reflexivity.
Qed.

Lemma missing_oplog_collection_is_fatal_witness :
  _writeOplogBatchImpl 1 (map insertOf twoRecords)
    (insertDocsToOplogCollection (exampleEnv (mkBatch twoRecords false)))
    noOplogWorld
  = Halt (Fassert 8352101
            (mkStatus NamespaceNotFound "Oplog collection does not exist"))
      (set_trace
         [EvWuowBegin OplogColl; EvAcquireLocks OplogColl; EvWuowAbort OplogColl]
         noOplogWorld).
Proof.
  apply (proj1 (proj2 (proj2 (missing_oplog_collection_is_fatal
                                (exampleEnv (mkBatch twoRecords false)) 0
                                (map insertOf twoRecords) noOplogWorld eq_refl)))).
Defined.

(** C9. For every batch of n records that [writeOplogBatch] writes
    successfully, the record counter ([batchSize]) is incremented by n and
    the batch counter by 1, and the batch timing grows by the time the
    call took, each as a 64-bit addition (first part).  As long as these
    sums stay within the 64-bit range, the record counter increases by
    exactly n and the batch counter by exactly 1, and the stats report
    exposes exactly these: the record count total under [batchSize], and
    the batch count and aggregated batch timing under [batches] (second
    part). *)
Theorem successful_batch_advances_stats env fuel ops w sw w' :
  writeOplogBatch env fuel ops w = Done sw w' ->
  (_batchSize (oplogWriterMetric w')
   = to_int64 (_batchSize (oplogWriterMetric w) + Z.of_nat (List.length ops))
   /\ _num (_batches (oplogWriterMetric w'))
      = to_int64 (_num (_batches (oplogWriterMetric w)) + 1)
   /\ _totalMillis (_batches (oplogWriterMetric w'))
      = to_int64 (_totalMillis (_batches (oplogWriterMetric w))
                  + (clock w' - clock w)))
  /\ (inInt64 (_batchSize (oplogWriterMetric w) + Z.of_nat (List.length ops)) ->
      inInt64 (_num (_batches (oplogWriterMetric w)) + 1) ->
      inInt64 (_totalMillis (_batches (oplogWriterMetric w)) + (clock w' - clock w)) ->
      _batchSize (oplogWriterMetric w')
      = _batchSize (oplogWriterMetric w) + Z.of_nat (List.length ops)
      /\ _num (_batches (oplogWriterMetric w'))
         = _num (_batches (oplogWriterMetric w)) + 1
      /\ _totalMillis (_batches (oplogWriterMetric w'))
         = _totalMillis (_batches (oplogWriterMetric w)) + (clock w' - clock w)
      /\ getReport (oplogWriterMetric w')
         = [("batchSize",
             RNumber (_batchSize (oplogWriterMetric w) + Z.of_nat (List.length ops)));
            ("batches",
             RObject [("num", _num (_batches (oplogWriterMetric w)) + 1);
                      ("totalMillis",
                       _totalMillis (_batches (oplogWriterMetric w))
                       + (clock w' - clock w))])]).
Proof.
  rewrite writeOplogBatch_cases.
  destruct (vector_empty ops); [discriminate|].
  destruct (forallb parses ops); [|discriminate].
  pose proof (keepsMetric_writeBothSinks env fuel (changeCollectionsModeActive w)
                (map insertOf ops) (afterStart ops w)) as Hm.
  destruct (writeBothSinks env fuel (changeCollectionsModeActive w)
              (map insertOf ops) (afterStart ops w)) as [u w1|f w1|w1];
    try discriminate.
  intro H. inversion H; subst sw w'. clear H.
  unfold keepsMetric in Hm. cbn [world_of] in Hm.
  assert (Hb : _batchSize (oplogWriterMetric (afterStop (clock w) w1))
               = to_int64 (_batchSize (oplogWriterMetric w)
                           + Z.of_nat (List.length ops))).
  { cbn [afterStop oplogWriterMetric set_oplogWriterMetric set_trace _batchSize].
    rewrite Hm.
    cbn [afterStart oplogWriterMetric set_oplogWriterMetric set_trace
         incrementBatchSize _batchSize].
    apply Counter64_increment_wraps. }
  assert (Hn : _num (_batches (oplogWriterMetric (afterStop (clock w) w1)))
               = to_int64 (_num (_batches (oplogWriterMetric w)) + 1)).
  { cbn [afterStop oplogWriterMetric set_oplogWriterMetric set_trace _batches
         TimerStats_record getBatches _num].
    rewrite Hm. reflexivity. }
  assert (Ht : _totalMillis (_batches (oplogWriterMetric (afterStop (clock w) w1)))
               = to_int64 (_totalMillis (_batches (oplogWriterMetric w))
                           + (clock (afterStop (clock w) w1) - clock w))).
  { cbn [afterStop oplogWriterMetric set_oplogWriterMetric set_trace _batches
         TimerStats_record getBatches _totalMillis clock].
    rewrite Hm. reflexivity. }
  split; [split; [exact Hb | split; [exact Hn | exact Ht]]|].
  intros Bb Bn Bt.
  rewrite (to_int64_small _ Bb) in Hb.
  rewrite (to_int64_small _ Bn) in Hn.
  rewrite (to_int64_small _ Bt) in Ht.
  split; [exact Hb | split; [exact Hn | split; [exact Ht|]]].
  unfold getReport, TimerStats_getReport. rewrite Hb, Hn, Ht. reflexivity.
Qed.

Lemma successful_batch_advances_stats_witness :
  let w' := world_of (writeOplogBatch (exampleEnv (mkBatch twoRecords false)) 1
                        twoRecords exampleWorld) in
  _batchSize (oplogWriterMetric w') = 0 + 2
  /\ _num (_batches (oplogWriterMetric w')) = 0 + 1.
Proof.
  cbv zeta.
  destruct (proj2 (successful_batch_advances_stats
                     (exampleEnv (mkBatch twoRecords false)) 1
                     twoRecords exampleWorld (SW_Value (mkOpTime 11 1))
                     (world_of (writeOplogBatch (exampleEnv (mkBatch twoRecords false)) 1
                                  twoRecords exampleWorld))
                     ltac:(vm_compute; reflexivity))
              ltac:(vm_compute; split; discriminate)
              ltac:(vm_compute; split; discriminate)
              ltac:(vm_compute; split; discriminate))
    as [H1 [H2 _]].
  split; [exact H1 | exact H2].
Defined.

(** What [writeOplogBatch] has done to the stats and to the trace, however
    it ends. *)
Lemma writeOplogBatch_stats_at_start env fuel ops w :
  vector_empty ops = false ->
  (exists t,
     trace (world_of (writeOplogBatch env fuel ops w))
     = trace w
       ++ EvIncrementBatchSize (Z.of_nat (List.length ops)) :: EvTimerStart :: t)
  /\ _batchSize (oplogWriterMetric (world_of (writeOplogBatch env fuel ops w)))
     = to_int64 (_batchSize (oplogWriterMetric w) + Z.of_nat (List.length ops))
  /\ (isDone (writeOplogBatch env fuel ops w) = false ->
      _batches (oplogWriterMetric (world_of (writeOplogBatch env fuel ops w)))
      = _batches (oplogWriterMetric w)).
Proof.
  intro Hne.
  rewrite writeOplogBatch_cases, Hne.
  pose proof (keepsMetric_writeBothSinks env fuel (changeCollectionsModeActive w)
                (map insertOf ops) (afterStart ops w)) as Hm.
  destruct (writeBothSinks_ext env fuel (changeCollectionsModeActive w)
              (map insertOf ops) (afterStart ops w)) as [t Et].
  unfold keepsMetric in Hm.
  assert (Hstart : _batchSize (oplogWriterMetric (afterStart ops w))
                   = to_int64 (_batchSize (oplogWriterMetric w)
                               + Z.of_nat (List.length ops))).
  { cbn [afterStart oplogWriterMetric set_oplogWriterMetric set_trace
         incrementBatchSize _batchSize].
    apply Counter64_increment_wraps. }
  assert (Hbatches : _batches (oplogWriterMetric (afterStart ops w))
                     = _batches (oplogWriterMetric w)) by reflexivity.
  destruct (forallb parses ops).
  - destruct (writeBothSinks env fuel (changeCollectionsModeActive w)
                (map insertOf ops) (afterStart ops w)) as [u w1|f w1|w1];
      simpl in Et, Hm |- *.
    + split; [|split; [rewrite Hm; exact Hstart | discriminate]].
      rewrite Et. simpl. rewrite <- ?app_assoc. simpl. eexists; reflexivity.
    + split; [|split; [rewrite Hm; exact Hstart
                      | intros _; rewrite Hm; exact Hbatches]].
      rewrite Et. simpl. rewrite <- ?app_assoc. simpl. eexists; reflexivity.
    + split; [|split; [rewrite Hm; exact Hstart
                      | intros _; rewrite Hm; exact Hbatches]].
      rewrite Et. simpl. rewrite <- ?app_assoc. simpl. eexists; reflexivity.
  - split; [exists []; reflexivity|].
    split; [exact Hstart | intros _; exact Hbatches].
Qed.

(** C10, as stated, fails for the batch timer: when the oplog collection
    is missing, the write of two records halts with the record counter
    advanced by two and the batch timer as it was, with no batch counted
    and no time recorded. *)
Lemma failed_write_leaves_the_batch_timer :
  let r := writeOplogBatch (exampleEnv (mkBatch twoRecords false)) 1 twoRecords
             noOplogWorld in
  r = Halt (Fassert 8352101
              (mkStatus NamespaceNotFound "Oplog collection does not exist"))
        (world_of r)
  /\ _batchSize (oplogWriterMetric (world_of r))
     = _batchSize (oplogWriterMetric noOplogWorld) + 2
  /\ _num (_batches (oplogWriterMetric (world_of r)))
     = _num (_batches (oplogWriterMetric noOplogWorld))
  /\ _totalMillis (_batches (oplogWriterMetric (world_of r)))
     = _totalMillis (_batches (oplogWriterMetric noOplogWorld)).
Proof. vm_compute. repeat split. Qed.

(** C10, as the code has it.  The record counter is incremented, and the
    batch timer started, at the start of [writeOplogBatch], before any
    record is parsed and before any insert is attempted: for a non-empty batch,
    however the call ends, its first two events are the increment and the
    start of the timer, and the record counter has been incremented by the
    batch size, a 64-bit addition that is exact as long as the sum stays
    within the 64-bit range (first three parts).  The batch timer records
    the batch only when the call returns: whenever it does not return, the
    batch count and the batch timing are as they were (fourth part).  So
    when the write fails, the record counter alone has advanced: on a
    malformed record the call halts in the world left by the increment and
    the start of the timer (fifth part); on a failed insert, here on a
    missing oplog collection, it halts with the record counter incremented
    by the batch size and the batch timer unchanged (sixth part).  The
    stats update is not atomic with the success of the write. *)
Theorem record_counter_advances_before_the_write env fuel ops w :
  ops <> [] ->
  (exists t,
     trace (world_of (writeOplogBatch env fuel ops w))
     = trace w
       ++ EvIncrementBatchSize (Z.of_nat (List.length ops)) :: EvTimerStart :: t)
  /\ _batchSize (oplogWriterMetric (world_of (writeOplogBatch env fuel ops w)))
     = to_int64 (_batchSize (oplogWriterMetric w) + Z.of_nat (List.length ops))
  /\ (inInt64 (_batchSize (oplogWriterMetric w) + Z.of_nat (List.length ops)) ->
      _batchSize (oplogWriterMetric (world_of (writeOplogBatch env fuel ops w)))
      = _batchSize (oplogWriterMetric w) + Z.of_nat (List.length ops))
  /\ (isDone (writeOplogBatch env fuel ops w) = false ->
      _batches (oplogWriterMetric (world_of (writeOplogBatch env fuel ops w)))
      = _batches (oplogWriterMetric w))
  /\ (forallb parses ops = false ->
      writeOplogBatch env fuel ops w
      = Halt (InvariantStatusOK (mkStatus NoSuchKey "missing position"))
          (afterStart ops w))
  /\ (forallb parses ops = true ->
      skipWritesToOplogColl env = false ->
      oplogColl w = None ->
      (0 < fuel)%nat ->
      exists w',
        writeOplogBatch env fuel ops w
        = Halt (Fassert 8352101
                  (mkStatus NamespaceNotFound "Oplog collection does not exist")) w'
        /\ _batchSize (oplogWriterMetric w')
           = to_int64 (_batchSize (oplogWriterMetric w)
                       + Z.of_nat (List.length ops))
        /\ _batches (oplogWriterMetric w') = _batches (oplogWriterMetric w)).
Proof.
  intro Hne. apply vector_empty_false in Hne.
  destruct (writeOplogBatch_stats_at_start env fuel ops w Hne) as [Ht [Hb Hk]].
  split; [exact Ht|]. split; [exact Hb|].
  split; [intro Bb; rewrite Hb; apply to_int64_small, Bb|].
  split; [exact Hk|].
  rewrite writeOplogBatch_cases, Hne.
  split.
  - intro Hp. rewrite Hp. reflexivity.
  - intros Hp Hskip Hcoll Hfuel. rewrite Hp.
    destruct fuel as [|fuel]; [lia|].
    unfold writeBothSinks. rewrite Hskip. cbn [negb].
    unfold bind at 1. unfold bind at 1.
    rewrite (_writeOplogBatchImpl_missing env fuel (map insertOf ops)
               (afterStart ops w) Hcoll).
    eexists. split; [reflexivity|]. split; [|reflexivity].
    cbn [afterStart oplogWriterMetric set_oplogWriterMetric set_trace
         incrementBatchSize _batchSize].
    apply Counter64_increment_wraps.
Qed.

Lemma record_counter_advances_before_the_write_witness :
  exists w',
    writeOplogBatch (exampleEnv (mkBatch twoRecords false)) 1 twoRecords
      noOplogWorld
    = Halt (Fassert 8352101
              (mkStatus NamespaceNotFound "Oplog collection does not exist")) w'
    /\ _batchSize (oplogWriterMetric w')
       = to_int64 (_batchSize (oplogWriterMetric noOplogWorld) + 2)
    /\ _batches (oplogWriterMetric w') = _batches (oplogWriterMetric noOplogWorld).
Proof.
  apply (proj2 (proj2 (proj2 (proj2 (proj2
           (record_counter_advances_before_the_write
              (exampleEnv (mkBatch twoRecords false)) 1
              twoRecords noOplogWorld
              ltac:(discriminate))))))).
  - reflexivity.
  - reflexivity.
  - reflexivity.
  - simpl. lia.
Defined.

(** ** Failed writes *)

Lemma writeOplogBatch_never_returns_error env fuel ops w :
  match writeOplogBatch env fuel ops w with
  | Done (SW_Error _) _ => False
  | _ => True
  end.
Proof.
  destruct (writeOplogBatch env fuel ops w) as [sw w'|f w'|w'] eqn:E;
    try exact I.
  apply writeOplogBatch_Done in E. destruct E as [_ [_ E]].
  rewrite E. exact I.
Qed.

Lemma _run_batch_never_returns env flushJournal fuel ops w :
  match _run_batch env flushJournal fuel ops w with
  | Done LoopReturn _ => False
  | _ => True
  end.
Proof.
  rewrite _run_batch_unfold.
  destruct (parseOpTimeAndWallTimeFromOplogEntry (back ops noOp)); [|exact I].
  destruct (writeOplogBatch env fuel ops w); exact I.
Qed.

(** Every failure of the oplog-collection insert that is not a transient
    conflict, whatever its code, halts the process inside
    [_writeOplogBatchImpl]. *)
Lemma _writeOplogBatchImpl_failure_halts env fuel docs w coll st rest :
  oplogColl w = Some coll ->
  insertScript w = st :: rest ->
  isOK st = false ->
  isRetryable st = false ->
  _writeOplogBatchImpl (S fuel) docs (insertDocsToOplogCollection env) w
  = Halt (Fassert 8352101 st) (afterInsert env OplogColl docs w).
Proof.
  intros Hcoll Hscr Hok Hretry.
  unfold _writeOplogBatchImpl. simpl. unfold bind.
  rewrite (insertDocsToOplogCollection_present env docs w coll Hcoll), Hscr.
  cbn [hd]. rewrite Hok, Hretry. unfold ret, fassert. rewrite Hok. reflexivity.
Qed.

(** C4, at the failing input.  The storage engine answers the insert of a
    two-record batch with InterruptedAtShutdown.  The main loop does not
    return: [_writeOplogBatchImpl] passes the status to fassert 8352101,
    which halts the process (first part).  In general [writeOplogBatch]
    never returns a failed status (second part), so the branch of the loop
    body that returns silently on InterruptedAtShutdown is never taken: a
    pass through the second half of the loop body never ends in a return
    (third part). *)
Theorem interrupted_write_halts_the_process :
  (exists w',
     _run (exampleEnv (mkBatch twoRecords false)) 1 1 shutdownWorld
     = Halt (Fassert 8352101
               (mkStatus InterruptedAtShutdown "interrupted at shutdown")) w')
  /\ (forall env fuel ops w,
        match writeOplogBatch env fuel ops w with
        | Done (SW_Error _) _ => False
        | _ => True
        end)
  /\ (forall env flushJournal fuel ops w,
        match _run_batch env flushJournal fuel ops w with
        | Done LoopReturn _ => False
        | _ => True
        end).
Proof.
  split; [|split].
  - eexists. vm_compute. reflexivity.
  - apply writeOplogBatch_never_returns_error.
  - apply _run_batch_never_returns.
Qed.

(** ** The scenario of the specification

    A batch of two records (term 1, timestamps 10 and 11), change-feed
    mode inactive: the write returns the position of timestamp 11,
    LastWrittenPosition becomes (1, 11), the apply buffer receives the two
    records in order, and the stats count two records and one batch. *)
Example two_record_scenario :
  exists w',
    _run (exampleEnv (mkBatch twoRecords false)) 1 2 exampleWorld = Done tt w'
    /\ opTime (myLastWritten w') = mkOpTime 11 1
    /\ applyBuffer w' = twoRecords
    /\ _batchSize (oplogWriterMetric w') = 2
    /\ _num (_batches (oplogWriterMetric w')) = 1
    /\ journalFlushes w' = 1.
Proof. eexists. vm_compute. repeat split. Qed.

(** * Further properties of the writer *)

(** ** What a sink write does to the stores *)

Lemma appendDocs_nil c : appendDocs [] c = c.
Proof. destruct c; simpl; [rewrite app_nil_r|]; reflexivity. Qed.

Lemma appendDocs_app a b c : appendDocs b (appendDocs a c) = appendDocs (a ++ b) c.
Proof. destruct c; simpl; [rewrite app_assoc|]; reflexivity. Qed.

Lemma isRetryable_Status_OK : isRetryable Status_OK = false.
Proof. reflexivity. Qed.

Lemma retry_oplog_stores env docs fuel : forall w,
  changeColl (world_of (insertBatchAndHandleRetry fuel docs
                          (insertDocsToOplogCollection env) w))
  = changeColl w
  /\ match insertBatchAndHandleRetry fuel docs (insertDocsToOplogCollection env) w with
     | Done st w' =>
       isRetryable st = false
       /\ (if isOK st
           then exists c, oplogColl w = Some c /\ oplogColl w' = Some (c ++ docs)
           else oplogColl w' = oplogColl w)
     | Halt _ _ => False
     | OutOfFuel w' => oplogColl w' = oplogColl w
     end.
Proof.
  induction fuel as [|fuel IH]; intro w.
  - simpl. split; reflexivity.
  - simpl. unfold bind.
    destruct (oplogColl w) as [c|] eqn:Ec.
    + rewrite (insertDocsToOplogCollection_present env docs w c Ec).
      destruct (isOK (hd Status_OK (insertScript w))) eqn:Hok.
      * rewrite isRetryable_Status_OK. simpl.
        unfold afterInsert. simpl. rewrite Hok, Ec.
        split; [reflexivity|]. split; [reflexivity|].
        exists c. split; reflexivity.
      * assert (Hc : changeColl (afterInsert env OplogColl docs w) = changeColl w)
          by (unfold afterInsert; simpl; rewrite Hok; reflexivity).
        assert (Ho : oplogColl (afterInsert env OplogColl docs w) = Some c)
          by (unfold afterInsert; simpl; rewrite Hok; exact Ec).
        destruct (isRetryable (hd Status_OK (insertScript w))) eqn:Hr.
        -- destruct (IH (afterInsert env OplogColl docs w)) as [IHc IHo].
           split; [rewrite IHc; exact Hc|].
           destruct (insertBatchAndHandleRetry fuel docs
                       (insertDocsToOplogCollection env)
                       (afterInsert env OplogColl docs w)) as [st w'|f w'|w'].
           ++ destruct IHo as [Hnr Hst]. split; [exact Hnr|].
              destruct (isOK st).
              ** destruct Hst as [c' [E1 E2]]. exists c'.
                 rewrite Ho in E1. split; [exact E1 | exact E2].
              ** simpl in *. congruence.
           ++ exact IHo.
           ++ simpl in *. congruence.
        -- simpl. split; [exact Hc|]. split; [exact Hr|].
           rewrite Hok. simpl in *. congruence.
    + rewrite (insertDocsToOplogCollection_missing env docs w Ec). simpl.
      split; [reflexivity|]. split; [reflexivity | exact Ec].
Qed.

Lemma retry_change_stores env docs fuel : forall w,
  oplogColl (world_of (insertBatchAndHandleRetry fuel docs
                         (insertDocsToChangeCollection env) w))
  = oplogColl w
  /\ match insertBatchAndHandleRetry fuel docs (insertDocsToChangeCollection env) w with
     | Done st w' =>
       isRetryable st = false
       /\ changeColl w' = (if isOK st then changeColl w ++ docs else changeColl w)
     | Halt _ _ => False
     | OutOfFuel w' => changeColl w' = changeColl w
     end.
Proof.
  induction fuel as [|fuel IH]; intro w.
  - simpl. split; reflexivity.
  - simpl. unfold bind.
    rewrite (insertDocsToChangeCollection_run env docs w).
    assert (Ho : oplogColl (afterInsert env ChangeColl docs w) = oplogColl w).
    { unfold afterInsert. simpl.
      destruct (isOK (hd Status_OK (insertScript w))), (oplogColl w); reflexivity. }
    destruct (isOK (hd Status_OK (insertScript w))) eqn:Hok.
    + rewrite isRetryable_Status_OK. simpl.
      split; [exact Ho|]. split; [reflexivity|].
      unfold afterInsert. simpl. rewrite Hok. reflexivity.
    + assert (Hc : changeColl (afterInsert env ChangeColl docs w) = changeColl w)
        by (unfold afterInsert; simpl; rewrite Hok; reflexivity).
      destruct (isRetryable (hd Status_OK (insertScript w))) eqn:Hr.
      * destruct (IH (afterInsert env ChangeColl docs w)) as [IHo IHc].
        split; [rewrite IHo; exact Ho|].
        destruct (insertBatchAndHandleRetry fuel docs
                    (insertDocsToChangeCollection env)
                    (afterInsert env ChangeColl docs w)) as [st w'|f w'|w'].
        -- destruct IHc as [Hnr Hst]. split; [exact Hnr|].
           rewrite Hst, Hc. reflexivity.
        -- exact IHc.
        -- simpl in *. congruence.
      * simpl. split; [exact Ho|]. split; [exact Hr|].
        rewrite Hok. first [exact Hc | reflexivity | simpl in *; congruence].
Qed.

Lemma impl_oplog_stores env docs fuel w :
  changeColl (world_of (_writeOplogBatchImpl fuel docs
                          (insertDocsToOplogCollection env) w))
  = changeColl w
  /\ match _writeOplogBatchImpl fuel docs (insertDocsToOplogCollection env) w with
     | Done _ w' => oplogColl w <> None /\ oplogColl w' = appendDocs docs (oplogColl w)
     | Halt f w' =>
       (exists st, f = Fassert 8352101 st /\ isOK st = false /\ isRetryable st = false)
       /\ oplogColl w' = oplogColl w
     | OutOfFuel w' => oplogColl w' = oplogColl w
     end.
Proof.
  destruct (retry_oplog_stores env docs fuel w) as [Hc Ho].
  unfold _writeOplogBatchImpl, bind, fassert.
  destruct (insertBatchAndHandleRetry fuel docs (insertDocsToOplogCollection env) w)
    as [st w'|f w'|w']; simpl in *; try (split; assumption).
  - destruct Ho as [Hnr Hst]. destruct (isOK st) eqn:Hok; simpl.
    + split; [exact Hc|]. destruct Hst as [c [E1 E2]].
      rewrite E1, E2. split; [discriminate | reflexivity].
    + split; [exact Hc|]. split; [|exact Hst].
      exists st. repeat split; assumption.
  - contradiction.
Qed.

Lemma impl_change_stores env docs fuel w :
  oplogColl (world_of (_writeOplogBatchImpl fuel docs
                         (insertDocsToChangeCollection env) w))
  = oplogColl w
  /\ match _writeOplogBatchImpl fuel docs (insertDocsToChangeCollection env) w with
     | Done _ w' => changeColl w' = changeColl w ++ docs
     | Halt f w' =>
       (exists st, f = Fassert 8352101 st /\ isOK st = false /\ isRetryable st = false)
       /\ changeColl w' = changeColl w
     | OutOfFuel w' => changeColl w' = changeColl w
     end.
Proof.
  destruct (retry_change_stores env docs fuel w) as [Ho Hc].
  unfold _writeOplogBatchImpl, bind, fassert.
  destruct (insertBatchAndHandleRetry fuel docs (insertDocsToChangeCollection env) w)
    as [st w'|f w'|w']; simpl in *; try (split; assumption).
  - destruct Hc as [Hnr Hst]. destruct (isOK st) eqn:Hok; simpl.
    + split; [exact Ho | exact Hst].
    + split; [exact Ho|]. split; [|exact Hst].
      exists st. repeat split; assumption.
  - contradiction.
Qed.

(** The stores after the two sink writes, for each way they can end. *)
Lemma writeBothSinks_stores env fuel active docs w :
  match writeBothSinks env fuel active docs w with
  | Done _ w' =>
    (skipWritesToOplogColl env = false -> oplogColl w <> None)
    /\ oplogColl w'
       = (if skipWritesToOplogColl env then oplogColl w
          else appendDocs docs (oplogColl w))
    /\ changeColl w' = (if active then changeColl w ++ docs else changeColl w)
  | Halt f w' =>
    (exists st, f = Fassert 8352101 st /\ isOK st = false /\ isRetryable st = false)
    /\ changeColl w' = changeColl w
    /\ (oplogColl w' = oplogColl w
        \/ (skipWritesToOplogColl env = false
            /\ oplogColl w' = appendDocs docs (oplogColl w)))
  | OutOfFuel w' =>
    changeColl w' = changeColl w
    /\ (oplogColl w' = oplogColl w
        \/ (skipWritesToOplogColl env = false
            /\ oplogColl w' = appendDocs docs (oplogColl w)))
  end.
Proof.
  unfold writeBothSinks.
  set (stageC := if active
                 then _writeOplogBatchImpl fuel docs (insertDocsToChangeCollection env) ;;;
                      onWriteChangeCollection docs
                 else ret tt).
  assert (Hchange : forall w1,
    match stageC w1 with
    | Done _ w' =>
      oplogColl w' = oplogColl w1
      /\ changeColl w' = (if active then changeColl w1 ++ docs else changeColl w1)
    | Halt f w' =>
      (exists st, f = Fassert 8352101 st /\ isOK st = false /\ isRetryable st = false)
      /\ oplogColl w' = oplogColl w1 /\ changeColl w' = changeColl w1
    | OutOfFuel w' => oplogColl w' = oplogColl w1 /\ changeColl w' = changeColl w1
    end).
  { intro w1. subst stageC. destruct active.
    - destruct (impl_change_stores env docs fuel w1) as [Ho Hc].
      unfold bind.
      destruct (_writeOplogBatchImpl fuel docs (insertDocsToChangeCollection env) w1)
        as [u w2|f w2|w2]; simpl in *.
      + split; assumption.
      + destruct Hc as [Hf Hc]. repeat split; assumption.
      + split; assumption.
    - simpl. split; reflexivity. }
  destruct (skipWritesToOplogColl env) eqn:Hskip; cbn [negb].
  - assert (Hr : (ret tt ;;; stageC) w = stageC w) by reflexivity.
    rewrite Hr. specialize (Hchange w).
    destruct (stageC w) as [u w'|f w'|w'].
    + destruct Hchange as [Ho Hc]. split; [discriminate|]. split; assumption.
    + destruct Hchange as [Hf [Ho Hc]]. split; [exact Hf|]. split; [exact Hc|].
      left. exact Ho.
    + destruct Hchange as [Ho Hc]. split; [exact Hc|]. left. exact Ho.
  - destruct (impl_oplog_stores env docs fuel w) as [Hc1 Ho1].
    destruct (_writeOplogBatchImpl fuel docs (insertDocsToOplogCollection env) w)
      as [u w1|f w1|w1] eqn:E1; simpl in Hc1.
    + assert (Hr : ((_writeOplogBatchImpl fuel docs (insertDocsToOplogCollection env) ;;;
                     onWriteOplogCollection docs) ;;; stageC) w
                   = stageC (set_trace (trace w1 ++ [EvOnWriteOplogCollection docs]) w1)).
      { unfold bind. rewrite E1. reflexivity. }
      rewrite Hr.
      specialize (Hchange (set_trace (trace w1 ++ [EvOnWriteOplogCollection docs]) w1)).
      destruct Ho1 as [Hne Ho1].
      destruct (stageC (set_trace (trace w1 ++ [EvOnWriteOplogCollection docs]) w1))
        as [u' w'|f w'|w']; simpl in Hchange.
      * destruct Hchange as [Ho Hc]. split; [intros _; exact Hne|].
        split; [congruence|]. rewrite Hc, Hc1. reflexivity.
      * destruct Hchange as [Hf [Ho Hc]]. split; [exact Hf|].
        split; [congruence|]. right. split; [reflexivity | congruence].
      * destruct Hchange as [Ho Hc]. split; [congruence|].
        right. split; [reflexivity | congruence].
    + assert (Hr : ((_writeOplogBatchImpl fuel docs (insertDocsToOplogCollection env) ;;;
                     onWriteOplogCollection docs) ;;; stageC) w = Halt f w1).
      { unfold bind. rewrite E1. reflexivity. }
      rewrite Hr. destruct Ho1 as [Hf Ho1].
      split; [exact Hf|]. split; [exact Hc1|]. left. exact Ho1.
    + assert (Hr : ((_writeOplogBatchImpl fuel docs (insertDocsToOplogCollection env) ;;;
                     onWriteOplogCollection docs) ;;; stageC) w = OutOfFuel w1).
      { unfold bind. rewrite E1. reflexivity. }
      rewrite Hr. split; [exact Hc1|]. left. exact Ho1.
Qed.

(** ** What the write path leaves alone *)

Lemma keepsReplState_refl w : keepsReplState w w.
Proof. repeat (split; [reflexivity|]). apply ext_refl. constructor. Qed.

Lemma keepsReplState_trans w1 w2 w3 :
  keepsReplState w1 w2 -> keepsReplState w2 w3 -> keepsReplState w1 w3.
Proof.
  intros [A1 [B1 [C1 [D1 [E1 [F1 [G1 [H1 T1]]]]]]]]
         [A2 [B2 [C2 [D2 [E2 [F2 [G2 [H2 T2]]]]]]]].
  repeat (split; [congruence|]).
  eapply ext_trans; [|exact T1|exact T2].
  intros a b Ha Hb. apply Forall_app. split; assumption.
Qed.

Lemma keepsReplState_same w w' :
  applyBuffer w' = applyBuffer w ->
  applyBufferDrainMode w' = applyBufferDrainMode w ->
  _applyBufferInDrainMode w' = _applyBufferInDrainMode w ->
  fetches w' = fetches w ->
  myLastWritten w' = myLastWritten w ->
  oplogVisibility w' = oplogVisibility w ->
  journalFlushes w' = journalFlushes w ->
  changeCollectionsModeActive w' = changeCollectionsModeActive w ->
  trace w' = trace w ->
  keepsReplState w w'.
Proof.
  intros. repeat (split; [assumption|]).
  apply ext_same_trace; [constructor | assumption].
Qed.

Lemma keepsReplState_emit e w :
  isWriteEvent e = true -> keepsReplState w (set_trace (trace w ++ [e]) w).
Proof.
  intro H. repeat (split; [reflexivity|]).
  apply ext_emit. constructor; [exact H | constructor].
Qed.

Lemma keepsReplState_writeBothSinks env fuel active docs :
  steps keepsReplState (writeBothSinks env fuel active docs).
Proof.
  apply (run_steps_writeBothSinks env keepsReplState
           keepsReplState_refl keepsReplState_trans keepsReplState_emit);
    intros; apply keepsReplState_same; reflexivity.
Qed.

Lemma keepsReplState_writeOplogBatch env fuel ops :
  steps keepsReplState (writeOplogBatch env fuel ops).
Proof.
  apply (run_steps_writeOplogBatch env keepsReplState
           keepsReplState_refl keepsReplState_trans keepsReplState_emit);
    intros; apply keepsReplState_same; reflexivity.
Qed.

(** ** One call of [writeOplogBatch], for a batch of well-formed records *)

Lemma writeOplogBatch_summary env fuel ops w :
  vector_empty ops = false ->
  forallb parses ops = true ->
  match writeOplogBatch env fuel ops w with
  | Done sw w' =>
    sw = SW_Value (oplogSlot (back (map insertOf ops) noDoc))
    /\ (skipWritesToOplogColl env = false -> oplogColl w <> None)
    /\ oplogColl w'
       = (if skipWritesToOplogColl env then oplogColl w
          else appendDocs (map insertOf ops) (oplogColl w))
    /\ changeColl w'
       = (if changeCollectionsModeActive w
          then changeColl w ++ map insertOf ops else changeColl w)
    /\ _batchSize (oplogWriterMetric w')
       = to_int64 (_batchSize (oplogWriterMetric w) + Z.of_nat (List.length ops))
    /\ _num (_batches (oplogWriterMetric w'))
       = to_int64 (_num (_batches (oplogWriterMetric w)) + 1)
  | Halt f w' =>
    (exists st, f = Fassert 8352101 st /\ isOK st = false /\ isRetryable st = false)
    /\ changeColl w' = changeColl w
    /\ (oplogColl w' = oplogColl w
        \/ (skipWritesToOplogColl env = false
            /\ oplogColl w' = appendDocs (map insertOf ops) (oplogColl w)))
    /\ _batchSize (oplogWriterMetric w')
       = to_int64 (_batchSize (oplogWriterMetric w) + Z.of_nat (List.length ops))
  | OutOfFuel w' =>
    changeColl w' = changeColl w
    /\ (oplogColl w' = oplogColl w
        \/ (skipWritesToOplogColl env = false
            /\ oplogColl w' = appendDocs (map insertOf ops) (oplogColl w)))
    /\ _batchSize (oplogWriterMetric w')
       = to_int64 (_batchSize (oplogWriterMetric w) + Z.of_nat (List.length ops))
  end.
Proof.
  intros Hne Hp. rewrite writeOplogBatch_cases, Hne, Hp.
  pose proof (writeBothSinks_stores env fuel (changeCollectionsModeActive w)
                (map insertOf ops) (afterStart ops w)) as Hs.
  pose proof (keepsMetric_writeBothSinks env fuel (changeCollectionsModeActive w)
                (map insertOf ops) (afterStart ops w)) as Hm.
  unfold keepsMetric in Hm.
  assert (Hstart : _batchSize (oplogWriterMetric (afterStart ops w))
                   = to_int64 (_batchSize (oplogWriterMetric w)
                               + Z.of_nat (List.length ops))).
  { cbn [afterStart oplogWriterMetric set_oplogWriterMetric set_trace
         incrementBatchSize _batchSize].
    apply Counter64_increment_wraps. }
  destruct (writeBothSinks env fuel (changeCollectionsModeActive w)
              (map insertOf ops) (afterStart ops w)) as [u w1|f w1|w1];
    cbn [world_of] in Hm; simpl in Hs.
  - destruct Hs as [Hex [Ho Hc]].
    split; [reflexivity|]. split; [exact Hex|].
    split; [exact Ho|]. split; [exact Hc|].
    cbn [afterStop oplogWriterMetric set_oplogWriterMetric set_trace _batchSize
         _batches TimerStats_record getBatches _num].
    rewrite Hm. split; [exact Hstart | reflexivity].
  - destruct Hs as [Hf [Hc Ho]]. split; [exact Hf|]. split; [exact Hc|].
    split; [exact Ho|]. rewrite Hm. exact Hstart.
  - destruct Hs as [Hc Ho]. split; [exact Hc|].
    split; [exact Ho|]. rewrite Hm. exact Hstart.
Qed.

(** ** Records that cannot be parsed *)

Lemma empty_true_nil b : empty b = true -> releaseBatch b = [].
Proof.
  unfold empty. destruct (releaseBatch b); [reflexivity | discriminate].
Qed.

Lemma forallb_parses_false ops :
  forallb parses ops = false ->
  exists op, In op ops
             /\ parseFromOplogEntry op = SW_Error (mkStatus NoSuchKey "missing position").
Proof.
  induction ops as [|op rest IH]; simpl; [discriminate|].
  intro H. apply andb_false_iff in H. destruct H as [H|H].
  - exists op. split; [left; reflexivity|].
    unfold parses in H. unfold parseFromOplogEntry.
    destruct (position op); [discriminate | reflexivity].
  - destruct (IH H) as [op' [Hin Hop]]. exists op'.
    split; [right; exact Hin | exact Hop].
Qed.

(** ** One pass through the loop body *)

Lemma _run_body_summary env flushJournal fuel w :
  let k := fetches w in
  let batch := getNextBatch env k in
  let ops := releaseBatch batch in
  match _run_body env flushJournal fuel w with
  | Done ctl w' =>
    fetches w' = S k
    /\ applyBuffer w' = applyBuffer w ++ ops
    /\ oplogColl w'
       = (if skipWritesToOplogColl env then oplogColl w
          else appendDocs (map insertOf ops) (oplogColl w))
    /\ changeColl w'
       = (if changeCollectionsModeActive w
          then changeColl w ++ map insertOf ops else changeColl w)
    /\ _batchSize (oplogWriterMetric w')
       = (if empty batch then _batchSize (oplogWriterMetric w)
          else to_int64 (_batchSize (oplogWriterMetric w)
                         + Z.of_nat (List.length ops)))
    /\ _num (_batches (oplogWriterMetric w'))
       = (if empty batch then _num (_batches (oplogWriterMetric w))
          else to_int64 (_num (_batches (oplogWriterMetric w)) + 1))
    /\ ctl = (if empty batch && inShutdown env k then LoopReturn else LoopContinue)
    /\ (if empty batch
        then myLastWritten w' = myLastWritten w
             /\ oplogVisibility w' = oplogVisibility w
             /\ journalFlushes w' = journalFlushes w
        else exists lt,
             parseOpTimeAndWallTimeFromOplogEntry (back ops noOp) = SW_Value lt
             /\ forallb parses ops = true
             /\ (skipWritesToOplogColl env = false -> oplogColl w <> None)
             /\ myLastWritten w' = advanceForward lt (myLastWritten w)
             /\ oplogVisibility w' = getTimestamp (opTime lt)
             /\ journalFlushes w'
                = journalFlushes w + (if flushJournal then 1 else 0))
  | Halt f w' =>
    inFlight env w w'
    /\ ((exists s, f = InvariantStatusOK s /\ failsToParse ops s)
        \/ (exists st, f = Fassert 8352101 st /\ isOK st = false
                       /\ isRetryable st = false))
  | OutOfFuel w' => inFlight env w w'
  end.
Proof.
  cbv zeta. rewrite _run_body_unfold. cbv zeta.
  destruct (empty (getNextBatch env (fetches w))) eqn:He.
  - rewrite (empty_true_nil _ He). simpl. rewrite !app_nil_r, appendDocs_nil.
    destruct (skipWritesToOplogColl env), (changeCollectionsModeActive w),
      (inShutdown env (fetches w)); repeat split; reflexivity.
  - set (ops := releaseBatch (getNextBatch env (fetches w))) in *.
    assert (Hne : vector_empty ops = false) by exact He.
    rewrite _run_batch_unfold.
    destruct (parseOpTimeAndWallTimeFromOplogEntry (back ops noOp)) as [lt|s] eqn:Hlt.
    + destruct (forallb parses ops) eqn:Hp.
      * pose proof (writeOplogBatch_summary env fuel ops (afterFetch env w) Hne Hp)
          as Hs.
        pose proof (keepsReplState_writeOplogBatch env fuel ops (afterFetch env w))
          as [A [B [C [D [E [F [G [H T]]]]]]]].
        destruct (writeOplogBatch env fuel ops (afterFetch env w))
          as [sw w1|f w1|w1]; simpl in Hs, A, B, C, D, E, F, G, H.
        -- destruct Hs as [_ [Hex [Ho [Hc [Hb Hn]]]]]. simpl.
           rewrite D, A, Ho, Hc, Hb, Hn, E, G.
           repeat split; try reflexivity.
           exists lt. do 2 (split; [reflexivity|]). split; [exact Hex|].
           do 2 (split; [reflexivity|]).
           destruct flushJournal; [reflexivity | rewrite Z.add_0_r; reflexivity].
        -- destruct Hs as [Hf [Hc [Ho Hb]]].
           split; [|right; exact Hf].
           unfold inFlight. fold ops.
           split; [exact He|]. split; [exact D|]. split; [exact A|].
           split; [exact E|]. split; [exact Hc|]. split; [exact Ho|].
           right. exact Hb.
        -- destruct Hs as [Hc [Ho Hb]].
           unfold inFlight. fold ops.
           split; [exact He|]. split; [exact D|]. split; [exact A|].
           split; [exact E|]. split; [exact Hc|]. split; [exact Ho|].
           right. exact Hb.
      * rewrite writeOplogBatch_cases, Hne, Hp.
        split.
        2:{ left. eexists. split; [reflexivity|]. right.
            apply forallb_parses_false. exact Hp. }
        unfold inFlight. fold ops. simpl.
        split; [exact He|]. repeat (split; [reflexivity|]).
        split; [left; reflexivity | right].
        cbn [incrementBatchSize _batchSize]. apply Counter64_increment_wraps.
    + split; [|left; eexists; split; [reflexivity | left; exact Hlt]].
      unfold inFlight. fold ops. simpl.
      split; [exact He|]. repeat (split; [reflexivity|]).
      split; left; reflexivity.
Qed.

(** ** The whole loop *)

Lemma fetched_0 env k : fetched env k 0 = [].
Proof. reflexivity. Qed.

Lemma fetched_S env k n :
  fetched env k (S n) = releaseBatch (getNextBatch env k) ++ fetched env (S k) n.
Proof. reflexivity. Qed.

Lemma fetched_1 env k : fetched env k 1 = releaseBatch (getNextBatch env k).
Proof. unfold fetched. simpl. apply app_nil_r. Qed.

Lemma _run_loop_step env flushJournal fuel iters w :
  _run_loop env flushJournal fuel (S iters) w =
  match _run_body env flushJournal fuel w with
  | Done LoopContinue w1 => _run_loop env flushJournal fuel iters w1
  | Done LoopReturn w1 => Done tt w1
  | Halt f w1 => Halt f w1
  | OutOfFuel w1 => OutOfFuel w1
  end.
Proof.
  simpl. unfold bind.
  destruct (_run_body env flushJournal fuel w) as [[|] w1|f w1|w1]; reflexivity.
Qed.

(** A pass that did not come back to the loop, as the end of a run of the
    loop. *)
Lemma inFlight_summary env w w1 :
  inFlight env w w1 ->
  exists (n : nat) (extra : list InsertStatement) (started : list BSONObj),
    let k := fetches w in
    applyBuffer w1 = applyBuffer w ++ fetched env k n
    /\ oplogColl w1
       = (if skipWritesToOplogColl env then oplogColl w
          else appendDocs (map insertOf (fetched env k n) ++ extra) (oplogColl w))
    /\ to_int64 (_batchSize (oplogWriterMetric w1))
       = to_int64 (_batchSize (oplogWriterMetric w)
                   + Z.of_nat (List.length (fetched env k n))
                   + Z.of_nat (List.length started))
    /\ (inInt64 (_batchSize (oplogWriterMetric w)) ->
        inInt64 (_batchSize (oplogWriterMetric w1)))
    /\ (extra = []
        \/ extra = map insertOf (releaseBatch (getNextBatch env (k + n)%nat)))
    /\ (started = [] \/ started = releaseBatch (getNextBatch env (k + n)%nat))
    /\ (fetches w1 = (k + n)%nat \/ fetches w1 = S (k + n)%nat)
    /\ (false = true ->
        extra = [] /\ started = [] /\ fetches w1 = (k + n)%nat
        /\ (1 <= n)%nat
        /\ empty (getNextBatch env (k + n - 1)%nat) = true
        /\ inShutdown env (k + n - 1)%nat = true).
Proof.
  intros [He [Hf [Ha [_ [_ [Ho Hs]]]]]]. cbv zeta.
  assert (Hcount : forall started : list BSONObj,
            (started = [] /\ _batchSize (oplogWriterMetric w1)
                             = _batchSize (oplogWriterMetric w))
            \/ (started = releaseBatch (getNextBatch env (fetches w))
                /\ _batchSize (oplogWriterMetric w1)
                   = to_int64 (_batchSize (oplogWriterMetric w)
                               + Z.of_nat (List.length started))) ->
            to_int64 (_batchSize (oplogWriterMetric w1))
            = to_int64 (_batchSize (oplogWriterMetric w)
                        + Z.of_nat (@List.length BSONObj [])
                        + Z.of_nat (List.length started))
            /\ (inInt64 (_batchSize (oplogWriterMetric w)) ->
                inInt64 (_batchSize (oplogWriterMetric w1)))).
  { intros started [[E Hc]|[E Hc]]; rewrite Hc.
    - subst started. simpl. rewrite !Z.add_0_r. split; [reflexivity|].
      intro H; exact H.
    - simpl. rewrite Z.add_0_r. split; [apply to_int64_idem|].
      intros _. apply to_int64_inInt64. }
  destruct Ho as [Ho|[Hskip Ho]]; destruct Hs as [Hs|Hs].
  - exists O, [], [].
    destruct (Hcount [] (or_introl (conj eq_refl Hs))) as [Hc Hr].
    rewrite ?Nat.add_0_r, fetched_0, app_nil_r, appendDocs_nil.
    split; [exact Ha|].
    split; [rewrite Ho; destruct (skipWritesToOplogColl env); reflexivity|].
    split; [exact Hc|]. split; [exact Hr|].
    split; [left; reflexivity|]. split; [left; reflexivity|].
    split; [right; lia | discriminate].
  - exists O, [], (releaseBatch (getNextBatch env (fetches w))).
    destruct (Hcount _ (or_intror (conj eq_refl Hs))) as [Hc Hr].
    rewrite ?Nat.add_0_r, fetched_0, app_nil_r, appendDocs_nil.
    split; [exact Ha|].
    split; [rewrite Ho; destruct (skipWritesToOplogColl env); reflexivity|].
    split; [exact Hc|]. split; [exact Hr|].
    split; [left; reflexivity|]. split; [right; reflexivity|].
    split; [right; lia | discriminate].
  - exists O, (map insertOf (releaseBatch (getNextBatch env (fetches w)))), [].
    destruct (Hcount [] (or_introl (conj eq_refl Hs))) as [Hc Hr].
    rewrite ?Nat.add_0_r, fetched_0, app_nil_r. rewrite Hskip. simpl.
    split; [exact Ha|]. split; [exact Ho|].
    split; [exact Hc|]. split; [exact Hr|].
    split; [right; reflexivity|]. split; [left; reflexivity|].
    split; [right; lia | discriminate].
  - exists O, (map insertOf (releaseBatch (getNextBatch env (fetches w)))),
      (releaseBatch (getNextBatch env (fetches w))).
    destruct (Hcount _ (or_intror (conj eq_refl Hs))) as [Hc Hr].
    rewrite ?Nat.add_0_r, fetched_0, app_nil_r. rewrite Hskip. simpl.
    split; [exact Ha|]. split; [exact Ho|].
    split; [exact Hc|]. split; [exact Hr|].
    split; [right; reflexivity|]. split; [right; reflexivity|].
    split; [right; lia | discriminate].
Qed.

(** The record counter along the loop: one pass leaves it as it was or
    increments it by the size of its batch, and the increments add up
    modulo the 64-bit range. *)
Lemma counter_chain (e : bool) (c c1 c' n1 n2 s : Z) :
  c1 = (if e then c else to_int64 (c + n1)) ->
  (e = true -> n1 = 0) ->
  to_int64 c' = to_int64 (c1 + n2 + s) ->
  to_int64 c' = to_int64 (c + (n1 + n2) + s).
Proof.
  intros H1 He H. rewrite H. destruct e; subst c1.
  - rewrite (He eq_refl). reflexivity.
  - replace (c + (n1 + n2) + s) with (c + n1 + (n2 + s)) by lia.
    replace (to_int64 (c + n1) + n2 + s) with (to_int64 (c + n1) + (n2 + s)) by lia.
    apply to_int64_add_l.
Qed.

Lemma counter_chain_inInt64 (e : bool) (c c1 x : Z) :
  c1 = (if e then c else to_int64 x) -> inInt64 c -> inInt64 c1.
Proof.
  intros H Hc. destruct e; subst c1; [exact Hc | apply to_int64_inInt64].
Qed.

Lemma _run_loop_summary env flushJournal fuel iters : forall w,
  exists (n : nat) (extra : list InsertStatement) (started : list BSONObj),
    let r := _run_loop env flushJournal fuel iters w in
    let k := fetches w in
    applyBuffer (world_of r) = applyBuffer w ++ fetched env k n
    /\ oplogColl (world_of r)
       = (if skipWritesToOplogColl env then oplogColl w
          else appendDocs (map insertOf (fetched env k n) ++ extra) (oplogColl w))
    /\ to_int64 (_batchSize (oplogWriterMetric (world_of r)))
       = to_int64 (_batchSize (oplogWriterMetric w)
                   + Z.of_nat (List.length (fetched env k n))
                   + Z.of_nat (List.length started))
    /\ (inInt64 (_batchSize (oplogWriterMetric w)) ->
        inInt64 (_batchSize (oplogWriterMetric (world_of r))))
    /\ (extra = []
        \/ extra = map insertOf (releaseBatch (getNextBatch env (k + n)%nat)))
    /\ (started = [] \/ started = releaseBatch (getNextBatch env (k + n)%nat))
    /\ (fetches (world_of r) = (k + n)%nat \/ fetches (world_of r) = S (k + n)%nat)
    /\ (isDone r = true ->
        extra = [] /\ started = [] /\ fetches (world_of r) = (k + n)%nat
        /\ (1 <= n)%nat
        /\ empty (getNextBatch env (k + n - 1)%nat) = true
        /\ inShutdown env (k + n - 1)%nat = true).
Proof.
  induction iters as [|iters IH]; intro w.
  - exists O, [], []. simpl. rewrite app_nil_r, appendDocs_nil, Nat.add_0_r.
    split; [reflexivity|].
    split; [destruct (skipWritesToOplogColl env); reflexivity|].
    split; [rewrite !Z.add_0_r; reflexivity|]. split; [intro Hc; exact Hc|].
    split; [left; reflexivity|]. split; [left; reflexivity|].
    split; [left; reflexivity | discriminate].
  - cbv zeta. rewrite _run_loop_step.
    pose proof (_run_body_summary env flushJournal fuel w) as Hb. cbv zeta in Hb.
    destruct (_run_body env flushJournal fuel w) as [ctl w1|f w1|w1].
    + destruct Hb as [Hf [Ha [Ho [_ [Hs [_ [Hctl _]]]]]]].
      destruct (empty (getNextBatch env (fetches w))
                && inShutdown env (fetches w)) eqn:Hret; subst ctl.
      * (* the loop returns *)
        apply andb_true_iff in Hret. destruct Hret as [He Hsd].
        rewrite He in Hs.
        exists 1%nat, [], []. cbn [world_of isDone].
        rewrite fetched_1, app_nil_r.
        replace (fetches w + 1 - 1)%nat with (fetches w) by lia.
        split; [exact Ha|]. split; [exact Ho|].
        split.
        { rewrite Hs, (empty_true_nil _ He). simpl. rewrite !Z.add_0_r.
          reflexivity. }
        split; [rewrite Hs; intro Hc; exact Hc|].
        split; [left; reflexivity|]. split; [left; reflexivity|].
        split; [left; lia|].
        intros _. repeat split; try reflexivity; try assumption; lia.
      * (* the loop goes on from [w1] *)
        destruct (IH w1) as [n [extra [started Hn]]]. cbv zeta in Hn.
        destruct Hn as [Ha1 [Ho1 [Hs1 [Hr1 [Hex [Hst [Hfe Hdone]]]]]]].
        rewrite Hf in *.
        exists (S n), extra, started.
        replace (fetches w + S n)%nat with (S (fetches w) + n)%nat by lia.
        rewrite fetched_S.
        split; [rewrite Ha1, Ha, <- app_assoc; reflexivity|].
        split.
        { rewrite Ho1, Ho. destruct (skipWritesToOplogColl env); [reflexivity|].
          rewrite appendDocs_app, map_app, <- app_assoc. reflexivity. }
        split.
        { rewrite length_app, Nat2Z.inj_add.
          apply (counter_chain _ _ _ _ _ _ _ Hs); [|exact Hs1].
          intro He. rewrite (empty_true_nil _ He). reflexivity. }
        split.
        { intro Hc. apply Hr1. exact (counter_chain_inInt64 _ _ _ _ Hs Hc). }
        split; [exact Hex|]. split; [exact Hst|]. split; [exact Hfe|].
        intro Hd. destruct (Hdone Hd) as [E1 [E2 [E3 [E4 [E5 E6]]]]].
        repeat split; try assumption; lia.
    + destruct Hb as [Hb _].
      apply (inFlight_summary env w w1 Hb).
    + apply (inFlight_summary env w w1 Hb).
Qed.

Lemma _run_cases env fuel iters w :
  _run env fuel iters w =
  if arbiter env
  then Halt (Invariant "!_replCoord->getMemberState().arbiter()") w
  else _run_loop env (negb (isEphemeral env)) fuel iters w.
Proof. unfold _run. destruct (arbiter env); reflexivity. Qed.

Lemma _run_summary env fuel iters w :
  exists (n : nat) (extra : list InsertStatement) (started : list BSONObj),
    let r := _run env fuel iters w in
    let k := fetches w in
    applyBuffer (world_of r) = applyBuffer w ++ fetched env k n
    /\ oplogColl (world_of r)
       = (if skipWritesToOplogColl env then oplogColl w
          else appendDocs (map insertOf (fetched env k n) ++ extra) (oplogColl w))
    /\ to_int64 (_batchSize (oplogWriterMetric (world_of r)))
       = to_int64 (_batchSize (oplogWriterMetric w)
                   + Z.of_nat (List.length (fetched env k n))
                   + Z.of_nat (List.length started))
    /\ (inInt64 (_batchSize (oplogWriterMetric w)) ->
        inInt64 (_batchSize (oplogWriterMetric (world_of r))))
    /\ (extra = []
        \/ extra = map insertOf (releaseBatch (getNextBatch env (k + n)%nat)))
    /\ (started = [] \/ started = releaseBatch (getNextBatch env (k + n)%nat))
    /\ (fetches (world_of r) = (k + n)%nat \/ fetches (world_of r) = S (k + n)%nat)
    /\ (isDone r = true ->
        arbiter env = false
        /\ extra = [] /\ started = [] /\ fetches (world_of r) = (k + n)%nat
        /\ (1 <= n)%nat
        /\ empty (getNextBatch env (k + n - 1)%nat) = true
        /\ inShutdown env (k + n - 1)%nat = true).
Proof.
  rewrite _run_cases. destruct (arbiter env).
  - exists O, [], []. simpl. rewrite app_nil_r, appendDocs_nil, Nat.add_0_r.
    split; [reflexivity|].
    split; [destruct (skipWritesToOplogColl env); reflexivity|].
    split; [rewrite !Z.add_0_r; reflexivity|]. split; [intro Hc; exact Hc|].
    split; [left; reflexivity|]. split; [left; reflexivity|].
    split; [left; reflexivity | discriminate].
  - destruct (_run_loop_summary env (negb (isEphemeral env)) fuel iters w)
      as [n [extra [started H]]]. cbv zeta in H.
    destruct H as [Ha [Ho [Hs [Hr [Hex [Hst [Hf Hd]]]]]]].
    exists n, extra, started. cbv zeta.
    split; [exact Ha|]. split; [exact Ho|]. split; [exact Hs|].
    split; [exact Hr|]. split; [exact Hex|]. split; [exact Hst|].
    split; [exact Hf|].
    intro Hdone. split; [reflexivity | apply Hd; exact Hdone].
Qed.

(** ** Properties of the write *)

(** X1. A call of [writeOplogBatch] that returns has inserted the batch,
    once and in the order of the batch, whatever transient conflicts the
    writes met: the oplog collection exists and holds its old documents
    followed by one insert statement per record (unless the writer skips
    the oplog collection, which then is untouched), and the change
    collection holds its old documents followed by the same statements if
    the change-feed mode is active and is untouched otherwise.  Each
    statement carries its record and the position parsed from it. *)
Theorem writeOplogBatch_inserts_the_batch_once env fuel ops w sw w' :
  writeOplogBatch env fuel ops w = Done sw w' ->
  (skipWritesToOplogColl env = false -> oplogColl w <> None)
  /\ oplogColl w'
     = (if skipWritesToOplogColl env then oplogColl w
        else appendDocs (map insertOf ops) (oplogColl w))
  /\ changeColl w'
     = (if changeCollectionsModeActive w
        then changeColl w ++ map insertOf ops else changeColl w)
  /\ map doc (map insertOf ops) = ops
  /\ Forall (fun d => position (doc d) = Some (oplogSlot d)) (map insertOf ops).
Proof.
  intro H. pose proof (writeOplogBatch_Done _ _ _ _ _ _ H) as [Hne [Hp _]].
  apply vector_empty_false in Hne.
  pose proof (writeOplogBatch_summary env fuel ops w Hne Hp) as Hs.
  rewrite H in Hs. destruct Hs as [_ [Hex [Ho [Hc _]]]].
  split; [exact Hex|]. split; [exact Ho|]. split; [exact Hc|].
  split.
  - rewrite map_map. simpl. apply map_id.
  - clear H Hne Ho Hc. induction ops as [|op rest IH]; simpl; [constructor|].
    simpl in Hp. apply andb_true_iff in Hp. destruct Hp as [Hop Hrest].
    constructor; [|apply IH; exact Hrest].
    unfold insertOf. simpl. unfold parses in Hop.
    destruct (position op); [reflexivity | discriminate].
Qed.

Lemma writeOplogBatch_inserts_the_batch_once_witness :
  oplogColl (world_of (writeOplogBatch (exampleEnv (mkBatch twoRecords false)) 1
                         twoRecords changeFeedWorld))
  = Some (map insertOf twoRecords)
  /\ changeColl (world_of (writeOplogBatch (exampleEnv (mkBatch twoRecords false)) 1
                             twoRecords changeFeedWorld))
     = map insertOf twoRecords.
Proof.
  destruct (writeOplogBatch_inserts_the_batch_once
              (exampleEnv (mkBatch twoRecords false)) 1 twoRecords changeFeedWorld
              (SW_Value (mkOpTime 11 1))
              (world_of (writeOplogBatch (exampleEnv (mkBatch twoRecords false)) 1
                           twoRecords changeFeedWorld))
              ltac:(vm_compute; reflexivity))
    as [_ [Ho [Hc _]]].
  split; [exact Ho | exact Hc].
Defined.

(** X2. [writeOplogBatch] on its own, however it ends, advances no
    replication state and forwards nothing: LastWrittenPosition, the
    visibility point, the journal-flush count, the apply buffer and its
    drain mode are as before, and every call it makes is a call of the
    write path (stats, units of work on the two stores, observers). *)
Theorem writeOplogBatch_leaves_replication_state env fuel ops w :
  let w' := world_of (writeOplogBatch env fuel ops w) in
  myLastWritten w' = myLastWritten w
  /\ oplogVisibility w' = oplogVisibility w
  /\ journalFlushes w' = journalFlushes w
  /\ applyBuffer w' = applyBuffer w
  /\ applyBufferDrainMode w' = applyBufferDrainMode w
  /\ _applyBufferInDrainMode w' = _applyBufferInDrainMode w
  /\ exists t, trace w' = trace w ++ t /\ Forall (fun e => isWriteEvent e = true) t.
Proof.
  cbv zeta.
  destruct (keepsReplState_writeOplogBatch env fuel ops w)
    as [A [B [C [D [E [F [G [H T]]]]]]]].
  repeat (split; [assumption|]). exact T.
Qed.

(** ** Properties of the whole run *)

(** X3. In every run of [_run], however it ends, the apply buffer grows by
    whole batches in fetch order: it is the old buffer followed by the
    records of the first [n] batches fetched in the run, each once and in
    the order of its batch.  At most the last batch fetched is not
    forwarded, and when the run returns every batch fetched has been. *)
Theorem _run_forwards_batches_in_fetch_order env fuel iters w :
  exists n : nat,
    applyBuffer (world_of (_run env fuel iters w))
    = applyBuffer w ++ fetched env (fetches w) n
    /\ (fetches (world_of (_run env fuel iters w)) = (fetches w + n)%nat
        \/ fetches (world_of (_run env fuel iters w)) = S (fetches w + n)%nat)
    /\ (isDone (_run env fuel iters w) = true ->
        fetches (world_of (_run env fuel iters w)) = (fetches w + n)%nat).
Proof.
  destruct (_run_summary env fuel iters w) as [n [extra [started H]]].
  cbv zeta in H. destruct H as [Ha [_ [_ [_ [_ [_ [Hf Hd]]]]]]].
  exists n. split; [exact Ha|]. split; [exact Hf|].
  intro Hdone. apply Hd. exact Hdone.
Qed.

Lemma _run_forwards_batches_in_fetch_order_witness :
  exists n : nat,
    applyBuffer (world_of (_run (exampleEnv (mkBatch twoRecords false)) 1 2
                             exampleWorld))
    = applyBuffer exampleWorld
      ++ fetched (exampleEnv (mkBatch twoRecords false)) (fetches exampleWorld) n
    /\ fetches (world_of (_run (exampleEnv (mkBatch twoRecords false)) 1 2
                            exampleWorld))
       = (fetches exampleWorld + n)%nat.
Proof.
  destruct (_run_forwards_batches_in_fetch_order
              (exampleEnv (mkBatch twoRecords false)) 1 2 exampleWorld)
    as [n [Ha [_ Hd]]].
  exists n. split; [exact Ha|]. apply Hd. vm_compute. reflexivity.
Defined.

(** X4. The writer commits before it forwards.  Unless it is configured to
    skip the oplog collection, in every run of [_run], however it ends,
    the records forwarded to the apply buffer are those of the first [n]
    batches fetched, and the oplog collection holds its old documents
    followed by the insert statements of every record forwarded, in the
    same order, followed at most by the statements of one batch that was
    committed and not yet forwarded: nothing, or the statements of the
    very next batch fetched, the one after the [n] forwarded.  When the
    run returns there is no such batch. *)
Theorem _run_commits_before_it_forwards env fuel iters w :
  skipWritesToOplogColl env = false ->
  exists (n : nat) (extra : list InsertStatement),
    applyBuffer (world_of (_run env fuel iters w))
    = applyBuffer w ++ fetched env (fetches w) n
    /\ oplogColl (world_of (_run env fuel iters w))
       = appendDocs (map insertOf (fetched env (fetches w) n) ++ extra) (oplogColl w)
    /\ (extra = []
        \/ extra = map insertOf (releaseBatch (getNextBatch env (fetches w + n)%nat)))
    /\ (isDone (_run env fuel iters w) = true -> extra = []).
Proof.
  intro Hskip.
  destruct (_run_summary env fuel iters w) as [n [extra [started H]]].
  cbv zeta in H. destruct H as [Ha [Ho [_ [_ [Hex [_ [_ Hd]]]]]]].
  rewrite Hskip in Ho.
  exists n, extra.
  split; [exact Ha|]. split; [exact Ho|]. split; [exact Hex|].
  intro Hdone. apply Hd. exact Hdone.
Qed.

Lemma _run_commits_before_it_forwards_witness :
  exists (n : nat),
    applyBuffer (world_of (_run (exampleEnv (mkBatch twoRecords false)) 1 2
                             exampleWorld))
    = applyBuffer exampleWorld
      ++ fetched (exampleEnv (mkBatch twoRecords false)) (fetches exampleWorld) n
    /\ oplogColl (world_of (_run (exampleEnv (mkBatch twoRecords false)) 1 2
                              exampleWorld))
       = appendDocs
           (map insertOf
              (fetched (exampleEnv (mkBatch twoRecords false))
                 (fetches exampleWorld) n) ++ [])
           (oplogColl exampleWorld).
Proof.
  destruct (_run_commits_before_it_forwards
              (exampleEnv (mkBatch twoRecords false)) 1 2 exampleWorld eq_refl)
    as [n [extra [Ha [Ho [_ Hd]]]]].
  exists n. split; [exact Ha|].
  rewrite <- (Hd ltac:(vm_compute; reflexivity)). exact Ho.
Defined.

(** X5. The record counter accounts for the records forwarded.  Start
    [_run] with a record counter that holds a 64-bit value.  However the
    run ends, the records forwarded to the apply buffer are those of the
    first [n] batches fetched, and the record counter has been
    incremented, in 64-bit arithmetic, by the number of records forwarded
    plus the size of at most one batch whose write was begun and that was
    not forwarded: nothing, or the very next batch fetched.  As long as
    the sum stays within the 64-bit range the counter has advanced by
    exactly that number, and when the run returns no such batch is left:
    the counter has advanced by the number of records forwarded. *)
Theorem _run_record_counter_counts_forwarded env fuel iters w :
  inInt64 (_batchSize (oplogWriterMetric w)) ->
  exists (n : nat) (started : list BSONObj),
    applyBuffer (world_of (_run env fuel iters w))
    = applyBuffer w ++ fetched env (fetches w) n
    /\ (started = []
        \/ started = releaseBatch (getNextBatch env (fetches w + n)%nat))
    /\ _batchSize (oplogWriterMetric (world_of (_run env fuel iters w)))
       = to_int64 (_batchSize (oplogWriterMetric w)
                   + Z.of_nat (List.length (fetched env (fetches w) n))
                   + Z.of_nat (List.length started))
    /\ (inInt64 (_batchSize (oplogWriterMetric w)
                 + Z.of_nat (List.length (fetched env (fetches w) n))
                 + Z.of_nat (List.length started)) ->
        _batchSize (oplogWriterMetric (world_of (_run env fuel iters w)))
        = _batchSize (oplogWriterMetric w)
          + Z.of_nat (List.length (fetched env (fetches w) n))
          + Z.of_nat (List.length started))
    /\ (isDone (_run env fuel iters w) = true -> started = []).
Proof.
  intro Hc.
  destruct (_run_summary env fuel iters w) as [n [extra [started H]]].
  cbv zeta in H. destruct H as [Ha [_ [Hs [Hr [_ [Hst [_ Hd]]]]]]].
  rewrite (to_int64_small _ (Hr Hc)) in Hs.
  exists n, started.
  split; [exact Ha|]. split; [exact Hst|]. split; [exact Hs|].
  split; [intro Hb; rewrite Hs; apply to_int64_small, Hb|].
  intro Hdone. apply Hd. exact Hdone.
Qed.

Lemma _run_record_counter_counts_forwarded_witness :
  exists (n : nat),
    applyBuffer (world_of (_run (exampleEnv (mkBatch twoRecords false)) 1 2
                             exampleWorld))
    = applyBuffer exampleWorld
      ++ fetched (exampleEnv (mkBatch twoRecords false)) (fetches exampleWorld) n
    /\ _batchSize (oplogWriterMetric
                     (world_of (_run (exampleEnv (mkBatch twoRecords false)) 1 2
                                  exampleWorld)))
       = to_int64
           (_batchSize (oplogWriterMetric exampleWorld)
            + Z.of_nat (List.length
                          (fetched (exampleEnv (mkBatch twoRecords false))
                             (fetches exampleWorld) n))
            + Z.of_nat (@List.length BSONObj [])).
Proof.
  destruct (_run_record_counter_counts_forwarded
              (exampleEnv (mkBatch twoRecords false)) 1 2 exampleWorld
              ltac:(vm_compute; split; discriminate))
    as [n [started [Ha [_ [Hs [_ Hd]]]]]].
  exists n. split; [exact Ha|].
  rewrite <- (Hd ltac:(vm_compute; reflexivity)). exact Hs.
Defined.

(** X8. [_run] returns only when it is drained at shutdown: if a run
    returns, the member is not an arbiter, at least one batch was
    fetched, and the last batch fetched was empty while the system was
    shutting down.  It never returns with a batch in hand. *)
Theorem _run_returns_only_when_drained_at_shutdown env fuel iters w w' :
  _run env fuel iters w = Done tt w' ->
  arbiter env = false
  /\ (fetches w < fetches w')%nat
  /\ empty (getNextBatch env (fetches w' - 1)%nat) = true
  /\ inShutdown env (fetches w' - 1)%nat = true.
Proof.
  intro H.
  destruct (_run_summary env fuel iters w) as [n [extra [started Hs]]].
  cbv zeta in Hs. rewrite H in Hs. simpl in Hs.
  destruct Hs as [_ [_ [_ [_ [_ [_ [_ Hd]]]]]]].
  destruct (Hd eq_refl) as [Harb [_ [_ [Hf [Hn [He Hsd]]]]]].
  rewrite Hf. split; [exact Harb|]. split; [lia|]. split; assumption.
Qed.

Lemma _run_returns_only_when_drained_at_shutdown_witness :
  arbiter (exampleEnv (mkBatch twoRecords false)) = false
  /\ (fetches exampleWorld
      < fetches (world_of (_run (exampleEnv (mkBatch twoRecords false)) 1 2
                             exampleWorld)))%nat
  /\ empty (getNextBatch (exampleEnv (mkBatch twoRecords false))
              (fetches (world_of (_run (exampleEnv (mkBatch twoRecords false)) 1 2
                                    exampleWorld)) - 1)%nat) = true
  /\ inShutdown (exampleEnv (mkBatch twoRecords false))
       (fetches (world_of (_run (exampleEnv (mkBatch twoRecords false)) 1 2
                             exampleWorld)) - 1)%nat = true.
Proof.
  apply (_run_returns_only_when_drained_at_shutdown
           (exampleEnv (mkBatch twoRecords false)) 1 2 exampleWorld).
  vm_compute. reflexivity.
Defined.

(** ** Properties of one pass through the loop body *)

(** X6. A pass through the loop body that fetched a non-empty batch and
    came back to the loop has done all of the following, and the loop
    continues: every record of the batch could be parsed and the last one
    carries a wall-clock time; the visibility point is the timestamp of
    the last record; LastWrittenPosition has been advanced forward to the
    last record's position and wall-clock time; the journal flusher has
    been triggered once if it was asked for and not at all otherwise; the
    batch has been appended to the apply buffer; and the stats count one
    more batch (the batch count is a 64-bit integer, and has grown by
    exactly one as long as that stays within the 64-bit range). *)
Theorem _run_body_processes_the_batch env flushJournal fuel w ctl w' :
  _run_body env flushJournal fuel w = Done ctl w' ->
  empty (getNextBatch env (fetches w)) = false ->
  let ops := releaseBatch (getNextBatch env (fetches w)) in
  ctl = LoopContinue
  /\ forallb parses ops = true
  /\ (exists lt,
        parseOpTimeAndWallTimeFromOplogEntry (back ops noOp) = SW_Value lt
        /\ oplogVisibility w' = getTimestamp (opTime lt)
        /\ myLastWritten w' = advanceForward lt (myLastWritten w))
  /\ journalFlushes w' = journalFlushes w + (if flushJournal then 1 else 0)
  /\ applyBuffer w' = applyBuffer w ++ ops
  /\ _num (_batches (oplogWriterMetric w'))
     = to_int64 (_num (_batches (oplogWriterMetric w)) + 1)
  /\ (inInt64 (_num (_batches (oplogWriterMetric w)) + 1) ->
      _num (_batches (oplogWriterMetric w'))
      = _num (_batches (oplogWriterMetric w)) + 1).
Proof.
  intros H He. cbv zeta.
  pose proof (_run_body_summary env flushJournal fuel w) as Hs. cbv zeta in Hs.
  rewrite H, He in Hs. simpl in Hs.
  destruct Hs as [_ [Ha [_ [_ [_ [Hn [Hctl [lt [Hlt [Hp [_ [Hlw [Hv Hj]]]]]]]]]]]]].
  split; [exact Hctl|]. split; [exact Hp|].
  split; [exists lt; repeat split; assumption|].
  split; [exact Hj|]. split; [exact Ha|]. split; [exact Hn|].
  intro Hb. rewrite Hn. apply to_int64_small, Hb.
Qed.

Lemma _run_body_processes_the_batch_witness :
  let w' := world_of (_run_body (exampleEnv (mkBatch twoRecords false)) true 1
                        exampleWorld) in
  journalFlushes w' = journalFlushes exampleWorld + 1
  /\ applyBuffer w' = applyBuffer exampleWorld ++ twoRecords.
Proof.
  cbv zeta.
  destruct (_run_body_processes_the_batch
              (exampleEnv (mkBatch twoRecords false)) true 1 exampleWorld
              LoopContinue
              (world_of (_run_body (exampleEnv (mkBatch twoRecords false)) true 1
                           exampleWorld))
              ltac:(vm_compute; reflexivity) eq_refl)
    as [_ [_ [_ [Hj [Ha _]]]]].
  split; [exact Hj | exact Ha].
Defined.

(** X10. The last record of a batch is parsed, for its position and its
    wall-clock time, before the batch is written.  When it cannot be
    parsed the process halts on that check and the write has not begun:
    the stats, both stores, LastWrittenPosition and the apply buffer are
    as they were, and the only calls made in the pass are those of the
    fetch. *)
Theorem malformed_last_record_halts_before_the_write env flushJournal fuel w s :
  empty (getNextBatch env (fetches w)) = false ->
  parseOpTimeAndWallTimeFromOplogEntry
    (back (releaseBatch (getNextBatch env (fetches w))) noOp) = SW_Error s ->
  exists w',
    _run_body env flushJournal fuel w = Halt (InvariantStatusOK s) w'
    /\ oplogWriterMetric w' = oplogWriterMetric w
    /\ oplogColl w' = oplogColl w
    /\ changeColl w' = changeColl w
    /\ insertScript w' = insertScript w
    /\ myLastWritten w' = myLastWritten w
    /\ applyBuffer w' = applyBuffer w
    /\ trace w' = trace w ++ fetchTrace env w.
Proof.
  intros He Hlt. exists (afterFetch env w).
  rewrite _run_body_unfold. cbv zeta. rewrite He, _run_batch_unfold, Hlt.
  repeat split.
Qed.

Lemma malformed_last_record_halts_before_the_write_witness :
  exists w',
    _run_body
      (exampleEnv (mkBatch [exampleRecord 1 10;
                            mkBSONObj (Some (mkOpTime 11 1)) None "op"] false))
      true 1 exampleWorld
    = Halt (InvariantStatusOK (mkStatus NoSuchKey "missing wall clock time")) w'
    /\ oplogWriterMetric w' = oplogWriterMetric exampleWorld
    /\ oplogColl w' = oplogColl exampleWorld.
Proof.
  destruct (malformed_last_record_halts_before_the_write
              (exampleEnv (mkBatch [exampleRecord 1 10;
                                    mkBSONObj (Some (mkOpTime 11 1)) None "op"] false))
              true 1 exampleWorld
              (mkStatus NoSuchKey "missing wall clock time") eq_refl eq_refl)
    as [w' [H [Hm [Ho _]]]].
  exists w'. split; [exact H|]. split; [exact Hm | exact Ho].
Defined.

(** ** Properties of one unit of work *)

(** X11. Each insert unit of work is all or nothing.  [insertDocsToOplogCollection]
    always returns a status, never touches the change collection, and
    commits exactly when it returns OK: then the oplog collection existed
    and now holds its old documents followed by the documents of the
    call; otherwise (missing collection or failed insert) the status is
    not OK, the oplog collection is as it was and no commit was made.
    [insertDocsToChangeCollection] does the same on the change collection
    and never touches the oplog collection. *)
Theorem insert_unit_of_work_is_all_or_nothing env docs w :
  (exists st w' t,
     insertDocsToOplogCollection env docs w = Done st w'
     /\ trace w' = trace w ++ t
     /\ existsb (isCommit OplogColl) t = isOK st
     /\ changeColl w' = changeColl w
     /\ oplogColl w'
        = (if isOK st then appendDocs docs (oplogColl w) else oplogColl w)
     /\ (isOK st = false \/ exists c, oplogColl w = Some c))
  /\ (exists st w' t,
        insertDocsToChangeCollection env docs w = Done st w'
        /\ trace w' = trace w ++ t
        /\ existsb (isCommit ChangeColl) t = isOK st
        /\ oplogColl w' = oplogColl w
        /\ changeColl w'
           = (if isOK st then changeColl w ++ docs else changeColl w)).
Proof.
  split.
  - destruct (oplogColl w) as [c|] eqn:Ec.
    + rewrite (insertDocsToOplogCollection_present env docs w c Ec).
      unfold afterInsert. rewrite Ec.
      destruct (isOK (hd Status_OK (insertScript w))) eqn:Hok;
        (eexists; eexists; eexists; split; [reflexivity|]); simpl;
        rewrite ?Hok; repeat (split; [reflexivity|]).
      * right. exists c. reflexivity.
      * left. reflexivity.
    + rewrite (insertDocsToOplogCollection_missing env docs w Ec).
      eexists. eexists. eexists. split; [reflexivity|]. simpl.
      repeat (split; [first [reflexivity | exact Ec]|]). left. reflexivity.
  - rewrite (insertDocsToChangeCollection_run env docs w).
    unfold afterInsert.
    destruct (isOK (hd Status_OK (insertScript w))) eqn:Hok;
      (eexists; eexists; eexists; split; [reflexivity|]); simpl;
      rewrite ?Hok; destruct (oplogColl w); repeat split; reflexivity.
Qed.

(** ** The drain-mode flag and the apply buffer *)

Lemma drainModeInSync__run_body env flushJournal fuel w :
  drainModeInSync w ->
  drainModeInSync (world_of (_run_body env flushJournal fuel w)).
Proof.
  unfold drainModeInSync. intro Hsync.
  destruct (_run_body_keeps_after_fetch env flushJournal fuel w)
    as [F [D _]].
  rewrite F, D. simpl.
  destruct (Bool.eqb (_applyBufferInDrainMode w)
              (exhausted (getNextBatch env (fetches w)))) eqn:E;
    [|reflexivity].
  apply Bool.eqb_prop in E. congruence.
Qed.

Lemma drainModeInSync__run_loop env flushJournal fuel iters : forall w,
  drainModeInSync w ->
  drainModeInSync (world_of (_run_loop env flushJournal fuel iters w)).
Proof.
  induction iters as [|iters IH]; intros w Hsync; [exact Hsync|].
  rewrite _run_loop_step.
  pose proof (drainModeInSync__run_body env flushJournal fuel w Hsync) as Hb.
  destruct (_run_body env flushJournal fuel w) as [[|] w1|f w1|w1];
    simpl in Hb; try exact Hb.
  apply IH. exact Hb.
Qed.

(** X12. The writer's drain-mode flag mirrors the apply buffer.  If the
    flag and the apply buffer's drain mode agree when [_run] starts, they
    agree in the world any run leaves, however it ends: the writer never
    changes one without the other. *)
Theorem _run_keeps_drain_mode_in_sync env fuel iters w :
  _applyBufferInDrainMode w = applyBufferDrainMode w ->
  _applyBufferInDrainMode (world_of (_run env fuel iters w))
  = applyBufferDrainMode (world_of (_run env fuel iters w)).
Proof.
  intro Hsync. rewrite _run_cases. destruct (arbiter env); [exact Hsync|].
  apply drainModeInSync__run_loop. exact Hsync.
Qed.

Lemma _run_keeps_drain_mode_in_sync_witness :
  _applyBufferInDrainMode
    (world_of (_run (exampleEnv (mkBatch twoRecords false)) 1 2 exampleWorld))
  = applyBufferDrainMode
      (world_of (_run (exampleEnv (mkBatch twoRecords false)) 1 2 exampleWorld)).
Proof.
  apply (_run_keeps_drain_mode_in_sync
           (exampleEnv (mkBatch twoRecords false)) 1 2 exampleWorld).
  reflexivity.
Defined.

(** ** Why the process halts *)

Lemma _run_loop_halts env flushJournal fuel iters : forall w f w',
  _run_loop env flushJournal fuel iters w = Halt f w' ->
  exists k : nat,
    (fetches w <= k)%nat
    /\ fetches w' = S k
    /\ empty (getNextBatch env k) = false
    /\ ((exists s, f = InvariantStatusOK s
                   /\ failsToParse (releaseBatch (getNextBatch env k)) s)
        \/ (exists st, f = Fassert 8352101 st /\ isOK st = false
                       /\ isRetryable st = false)).
Proof.
  induction iters as [|iters IH]; intros w f w' H; [discriminate|].
  rewrite _run_loop_step in H.
  pose proof (_run_body_summary env flushJournal fuel w) as Hb. cbv zeta in Hb.
  destruct (_run_body env flushJournal fuel w) as [[|] w1|f1 w1|w1];
    try discriminate.
  - destruct Hb as [Hf _].
    destruct (IH w1 f w' H) as [k [Hk Hrest]].
    exists k. split; [lia | exact Hrest].
  - inversion H; subst. destruct Hb as [[He [Hf _]] Hwhy].
    exists (fetches w). split; [lia|]. split; [exact Hf|].
    split; [exact He | exact Hwhy].
Qed.

(** X7. The only ways [_run] halts the process.  A run that halts does so
    on the arbiter check, before anything else is done; or on a batch
    fetched in the run, not empty, of which a record cannot be parsed: the
    status of the halt is the error of the parse of its last record (for
    its position and wall-clock time) or of the parse of one of its
    records (for its position), and that batch is the last one fetched; or
    on fassert 8352101, with the status of an insert that failed for
    another reason than a transient conflict, again on the last batch
    fetched.  It never halts on fassert 8543103, on the comparison of the
    returned position with the last record's, or on the check that the
    batch is not empty: none of the three fails in a run of the loop (for
    the comparison, because both parsers read the position of the
    record). *)
Theorem _run_halts_only_on env fuel iters w f w' :
  _run env fuel iters w = Halt f w' ->
  match f with
  | Invariant expr =>
    expr = "!_replCoord->getMemberState().arbiter()"
    /\ arbiter env = true /\ w' = w
  | InvariantStatusOK s =>
    arbiter env = false
    /\ exists k : nat,
         (fetches w <= k)%nat /\ fetches w' = S k
         /\ empty (getNextBatch env k) = false
         /\ failsToParse (releaseBatch (getNextBatch env k)) s
  | Fassert msgid st =>
    arbiter env = false /\ msgid = 8352101
    /\ isOK st = false /\ isRetryable st = false
    /\ exists k : nat,
         (fetches w <= k)%nat /\ fetches w' = S k
         /\ empty (getNextBatch env k) = false
  | FassertNoTrace _ _ => False
  end.
Proof.
  rewrite _run_cases. destruct (arbiter env) eqn:Harb.
  - intro H. inversion H; subst. repeat split.
  - intro H. apply _run_loop_halts in H.
    destruct H as [k [Hk [Hf [He [[s [Hs Hp]]|[st [Hst [Hok Hr]]]]]]]]; subst f.
    + split; [reflexivity|]. exists k. repeat split; assumption.
    + repeat split; try assumption. exists k. repeat split; assumption.
Qed.

Lemma _run_halts_only_on_witness :
  arbiter (exampleEnv (mkBatch [exampleRecord 1 10;
                                mkBSONObj (Some (mkOpTime 11 1)) None "op"] false))
  = false
  /\ exists k : nat,
       (fetches exampleWorld <= k)%nat
       /\ fetches
            (world_of
               (_run (exampleEnv (mkBatch [exampleRecord 1 10;
                                           mkBSONObj (Some (mkOpTime 11 1)) None "op"]
                                    false))
                  1 1 exampleWorld))
          = S k
       /\ empty
            (getNextBatch
               (exampleEnv (mkBatch [exampleRecord 1 10;
                                     mkBSONObj (Some (mkOpTime 11 1)) None "op"] false))
               k)
          = false
       /\ failsToParse
            (releaseBatch
               (getNextBatch
                  (exampleEnv (mkBatch [exampleRecord 1 10;
                                        mkBSONObj (Some (mkOpTime 11 1)) None "op"]
                                 false))
                  k))
            (mkStatus NoSuchKey "missing wall clock time").
Proof.
  apply (_run_halts_only_on
           (exampleEnv (mkBatch [exampleRecord 1 10;
                                 mkBSONObj (Some (mkOpTime 11 1)) None "op"] false))
           1 1 exampleWorld
           (InvariantStatusOK (mkStatus NoSuchKey "missing wall clock time"))
           (world_of
              (_run (exampleEnv (mkBatch [exampleRecord 1 10;
                                          mkBSONObj (Some (mkOpTime 11 1)) None "op"]
                                   false))
                 1 1 exampleWorld))).
  vm_compute. reflexivity.
Defined.

(** ** A run that meets only transient conflicts *)

Lemma scriptShrinks_refl w : scriptShrinks w w.
Proof. exists O. reflexivity. Qed.

Lemma scriptShrinks_trans w1 w2 w3 :
  scriptShrinks w1 w2 -> scriptShrinks w2 w3 -> scriptShrinks w1 w3.
Proof.
  intros [m1 E1] [m2 E2]. exists (m2 + m1)%nat.
  rewrite E2, E1. apply skipn_skipn.
Qed.

Lemma scriptShrinks_same w w' :
  insertScript w' = insertScript w -> scriptShrinks w w'.
Proof. intro E. exists O. exact E. Qed.

Lemma scriptShrinks_afterInsert env s docs w :
  scriptShrinks w (afterInsert env s docs w).
Proof. exists 1%nat. simpl. destruct (insertScript w); reflexivity. Qed.

Lemma scriptShrinks_insertDocsToOplogCollection env docs :
  steps scriptShrinks (insertDocsToOplogCollection env docs).
Proof.
  intro w. destruct (oplogColl w) as [c|] eqn:Ec.
  - rewrite (insertDocsToOplogCollection_present env docs w c Ec).
    apply scriptShrinks_afterInsert.
  - rewrite (insertDocsToOplogCollection_missing env docs w Ec).
    apply scriptShrinks_same. reflexivity.
Qed.

Lemma scriptShrinks_insertDocsToChangeCollection env docs :
  steps scriptShrinks (insertDocsToChangeCollection env docs).
Proof.
  intro w. rewrite (insertDocsToChangeCollection_run env docs w).
  apply scriptShrinks_afterInsert.
Qed.

Lemma scriptShrinks_writeBothSinks env fuel active docs :
  steps scriptShrinks (writeBothSinks env fuel active docs).
Proof.
  unfold writeBothSinks, onWriteOplogCollection, onWriteChangeCollection, emit.
  steps_tac scriptShrinks_refl scriptShrinks_trans
    ltac:(first
      [ apply (steps__writeOplogBatchImpl _ scriptShrinks_refl scriptShrinks_trans);
        first [ apply scriptShrinks_insertDocsToOplogCollection
              | apply scriptShrinks_insertDocsToChangeCollection ]
      | apply steps_modify; intro; apply scriptShrinks_same; reflexivity ]).
Qed.

Lemma scriptShrinks__run_body env flushJournal fuel :
  steps scriptShrinks (_run_body env flushJournal fuel).
Proof.
  intro w. rewrite _run_body_unfold. cbv zeta.
  destruct (empty (getNextBatch env (fetches w)));
    [apply scriptShrinks_same; reflexivity|].
  rewrite _run_batch_unfold.
  destruct (parseOpTimeAndWallTimeFromOplogEntry
              (back (releaseBatch (getNextBatch env (fetches w))) noOp));
    [|apply scriptShrinks_same; reflexivity].
  rewrite writeOplogBatch_cases.
  destruct (vector_empty (releaseBatch (getNextBatch env (fetches w))));
    [apply scriptShrinks_same; reflexivity|].
  destruct (forallb parses (releaseBatch (getNextBatch env (fetches w))));
    [|apply scriptShrinks_same; reflexivity].
  pose proof (scriptShrinks_writeBothSinks env fuel
                (changeCollectionsModeActive (afterFetch env w))
                (map insertOf (releaseBatch (getNextBatch env (fetches w))))
                (afterStart (releaseBatch (getNextBatch env (fetches w)))
                   (afterFetch env w))) as [m Hm].
  exists m.
  destruct (writeBothSinks env fuel (changeCollectionsModeActive (afterFetch env w))
              (map insertOf (releaseBatch (getNextBatch env (fetches w))))
              (afterStart (releaseBatch (getNextBatch env (fetches w)))
                 (afterFetch env w))); exact Hm.
Qed.

Lemma forallb_skipn {A} (p : A -> bool) m : forall l,
  forallb p l = true -> forallb p (skipn m l) = true.
Proof.
  induction m as [|m IH]; intros l H; [exact H|].
  destruct l as [|a l]; [reflexivity|].
  simpl in *. apply andb_true_iff in H. apply IH, H.
Qed.

Lemma wellFormed_parse ops :
  wellFormed ops = true ->
  forallb parses ops = true
  /\ exists lt, parseOpTimeAndWallTimeFromOplogEntry (back ops noOp) = SW_Value lt.
Proof.
  unfold wellFormed. intro H. apply andb_true_iff in H. destruct H as [Hp Hw].
  split; [exact Hp|].
  assert (Hne : ops <> []).
  { intro E. subst ops. simpl in Hw. discriminate. }
  destruct (parses_position _ (forallb_back parses ops noOp Hne Hp)) as [t Ht].
  unfold parseOpTimeAndWallTimeFromOplogEntry. rewrite Ht.
  destruct (wallClockTime (back ops noOp)) as [wt|]; [|discriminate].
  eexists. reflexivity.
Qed.

(** The conditions under which every write of a run commits: the oplog
    collection exists (or is skipped) and the storage engine has nothing
    but transient conflicts left, fewer than the fuel. *)
Lemma _run_body_goesOn env flushJournal fuel w :
  goesOn env (fetches w) = true ->
  (skipWritesToOplogColl env = false -> oplogColl w <> None) ->
  forallb isRetryable (insertScript w) = true ->
  (List.length (insertScript w) < fuel)%nat ->
  exists w1,
    _run_body env flushJournal fuel w = Done LoopContinue w1
    /\ fetches w1 = S (fetches w)
    /\ applyBuffer w1 = applyBuffer w ++ releaseBatch (getNextBatch env (fetches w))
    /\ (skipWritesToOplogColl env = false -> oplogColl w1 <> None)
    /\ forallb isRetryable (insertScript w1) = true
    /\ (List.length (insertScript w1) < fuel)%nat.
Proof.
  intros Hgo Hcoll Hscr Hfuel.
  assert (Hdone : exists w1, _run_body env flushJournal fuel w = Done LoopContinue w1).
  { rewrite _run_body_unfold. cbv zeta. unfold goesOn in Hgo.
    destruct (empty (getNextBatch env (fetches w))) eqn:He.
    - apply negb_true_iff in Hgo. rewrite Hgo. eexists. reflexivity.
    - destruct (wellFormed_parse _ Hgo) as [Hp [lt Hlt]].
      rewrite _run_batch_unfold, Hlt, writeOplogBatch_cases.
      unfold empty in He. rewrite He, Hp.
      destruct (writeBothSinks_success env fuel
                  (changeCollectionsModeActive (afterFetch env w))
                  (map insertOf (releaseBatch (getNextBatch env (fetches w))))
                  (afterStart (releaseBatch (getNextBatch env (fetches w)))
                     (afterFetch env w)) Hcoll Hscr Hfuel) as [w1 E1].
      rewrite E1. eexists. reflexivity. }
  destruct Hdone as [w1 E]. exists w1. split; [exact E|].
  pose proof (_run_body_summary env flushJournal fuel w) as Hs. cbv zeta in Hs.
  rewrite E in Hs. destruct Hs as [Hf [Ha [Ho _]]].
  destruct (scriptShrinks__run_body env flushJournal fuel w) as [m Hm].
  rewrite E in Hm. simpl in Hm.
  split; [exact Hf|]. split; [exact Ha|]. split.
  - intro Hskip. rewrite Ho, Hskip. specialize (Hcoll Hskip).
    destruct (oplogColl w); [discriminate | contradiction].
  - rewrite Hm. split; [apply forallb_skipn; exact Hscr|].
    rewrite length_skipn. lia.
Qed.

Lemma _run_loop_goesOn env flushJournal fuel n : forall w iters,
  (forall i, (i < n)%nat -> goesOn env (fetches w + i) = true) ->
  empty (getNextBatch env (fetches w + n)) = true ->
  inShutdown env (fetches w + n) = true ->
  (skipWritesToOplogColl env = false -> oplogColl w <> None) ->
  forallb isRetryable (insertScript w) = true ->
  (List.length (insertScript w) < fuel)%nat ->
  (n < iters)%nat ->
  exists w',
    _run_loop env flushJournal fuel iters w = Done tt w'
    /\ fetches w' = S (fetches w + n)
    /\ applyBuffer w' = applyBuffer w ++ fetched env (fetches w) n.
Proof.
  induction n as [|n IH]; intros w iters Hgo He Hsd Hcoll Hscr Hfuel Hit;
    (destruct iters as [|iters]; [lia|]); rewrite _run_loop_step.
  - rewrite Nat.add_0_r in *.
    rewrite _run_body_unfold. cbv zeta. rewrite He, Hsd.
    eexists. split; [reflexivity|]. simpl. rewrite app_nil_r.
    split; reflexivity.
  - assert (Hgo0 : goesOn env (fetches w) = true).
    { specialize (Hgo O ltac:(lia)). rewrite Nat.add_0_r in Hgo. exact Hgo. }
    destruct (_run_body_goesOn env flushJournal fuel w Hgo0 Hcoll Hscr Hfuel)
      as [w1 [E [Hf [Ha [Hcoll1 [Hscr1 Hfuel1]]]]]].
    rewrite E.
    destruct (IH w1 iters) as [w' [E' [Hf' Ha']]]; try assumption; try lia.
    + intros i Hi. rewrite Hf.
      replace (S (fetches w) + i)%nat with (fetches w + S i)%nat by lia.
      apply Hgo. lia.
    + rewrite Hf.
      replace (S (fetches w) + n)%nat with (fetches w + S n)%nat by lia. exact He.
    + rewrite Hf.
      replace (S (fetches w) + n)%nat with (fetches w + S n)%nat by lia. exact Hsd.
    + exists w'. split; [exact E'|]. split; [rewrite Hf', Hf; lia|].
      rewrite Ha', Ha, Hf, fetched_S, <- app_assoc. reflexivity.
Qed.

(** X9. A run with enough fuel returns at shutdown.  Suppose the member is
    not an arbiter, the oplog collection exists (or is skipped), the
    storage engine has nothing but transient conflicts left, fewer than
    the fuel of a write, the first [n] batches fetched are each empty
    (with the system not shutting down) or well formed, and the next one
    is empty while the system is shutting down.  Then [_run], given more
    than [n] iterations, returns; it has fetched [n + 1] batches and
    forwarded the records of the first [n], in fetch order. *)
Theorem _run_returns_at_shutdown env fuel iters n w :
  arbiter env = false ->
  (skipWritesToOplogColl env = false -> oplogColl w <> None) ->
  forallb isRetryable (insertScript w) = true ->
  (List.length (insertScript w) < fuel)%nat ->
  (forall i, (i < n)%nat -> goesOn env (fetches w + i) = true) ->
  empty (getNextBatch env (fetches w + n)) = true ->
  inShutdown env (fetches w + n) = true ->
  (n < iters)%nat ->
  exists w',
    _run env fuel iters w = Done tt w'
    /\ fetches w' = S (fetches w + n)
    /\ applyBuffer w' = applyBuffer w ++ fetched env (fetches w) n.
Proof.
  intros Harb Hcoll Hscr Hfuel Hgo He Hsd Hit.
  rewrite _run_cases, Harb.
  apply (_run_loop_goesOn env (negb (isEphemeral env)) fuel n w iters);
    assumption.
Qed.

Lemma _run_returns_at_shutdown_witness :
  exists w',
    _run (exampleEnv (mkBatch twoRecords false)) 1 2 exampleWorld = Done tt w'
    /\ fetches w' = S (fetches exampleWorld + 1)
    /\ applyBuffer w'
       = applyBuffer exampleWorld
         ++ fetched (exampleEnv (mkBatch twoRecords false)) (fetches exampleWorld) 1.
Proof.
  apply (_run_returns_at_shutdown
           (exampleEnv (mkBatch twoRecords false)) 1 2 1 exampleWorld).
  - reflexivity.
  - discriminate.
  - reflexivity.
  - simpl. lia.
  - intros i Hi. assert (E : i = O) by lia. subst i. reflexivity.
  - reflexivity.
  - reflexivity.
  - lia.
Defined.
